(** * ZodWorker: a typed task-dispatch layer over graphile-worker

    Shallow embedding of the [ZodWorker] class (the worker source file of the
    web application) and of the parts of its collaborators that the class
    observes: zod schemas, the Prisma raw-query call, the graphile-worker
    runner and the logger.

    Conventions.
    - JavaScript values that reach this layer untyped (payloads, rows, job
      objects) are terms of [value].
    - An [async] method is a computation in the monad [M]: it reads and
      writes the worker's mutable slot [#runner], appends to a chronological
      trace of the calls made to collaborators, and either returns or throws.
    - Collaborators are answered by a record of oracles that see the history
      of calls so far, so a collaborator may be stateful. *)

From Stdlib Require Import ZArith List.
From stdpp Require Import base option gmap strings list.

Import ListNotations.
Set Warnings "-register-all".
Open Scope string_scope.
Open Scope Z_scope.

(** ** JavaScript values *)

Inductive value : Type :=
| VUndefined
| VNull
| VBool (b : bool)
| VNum (n : Z)
| VStr (s : string)
| VDate (ms : Z)
| VArr (items : list value)
| VObj (props : list (string * value)).

(** [ToBoolean]: the falsy values are [undefined], [null], [false], [0]
    and the empty string.  Numbers are integers here, so [NaN] does not
    arise. *)
Definition truthy (v : value) : bool :=
  match v with
  | VUndefined | VNull | VBool false | VNum 0 | VStr EmptyString => false
  | _ => true
  end.

(** [a || b] *)
Definition js_or (a b : value) : value := if truthy a then a else b.

Fixpoint assoc {A : Type} (k : string) (ps : list (string * A)) : option A :=
  match ps with
  | [] => None
  | (k', v) :: rest => if String.eqb k k' then Some v else assoc k rest
  end.

(** [o[k]] on an object; [undefined] when the key is absent. *)
Definition get_prop (k : string) (ps : list (string * value)) : value :=
  match assoc k ps with
  | Some v => v
  | None => VUndefined
  end.

(** [o.k] for an arbitrary value that is neither [undefined] nor [null]. *)
Definition prop (v : value) (k : string) : value :=
  match v with
  | VObj ps => get_prop k ps
  | _ => VUndefined
  end.

(** ** Errors and outcomes *)

Record JsError : Type := mkJsError { name : string; message : string }.

(** [new Error(msg)] *)
Definition Error (msg : string) : JsError :=
  {| name := "Error"; message := msg |}.

(** [Error.prototype.toString], which is what a template literal applies. *)
Definition Error_toString (e : JsError) : string :=
  if String.eqb (name e) "" then message e
  else if String.eqb (message e) "" then name e
  else name e ++ ": " ++ message e.

Inductive outcome (A : Type) : Type :=
| Throw (e : JsError)
| Return (a : A).
Arguments Throw {A} e.
Arguments Return {A} a.

(** ** The JavaScript runtime functions the class relies on *)

Record Runtime : Type := {
  (** [JSON.stringify]; the result is a string, or [undefined] for
      [undefined] *)
  JSON_stringify : value -> value;
  (** [String(x)], used by [z.coerce.string()] and by template literals *)
  js_String : value -> string;
  (** [new Date(x)]; [None] is an invalid date *)
  js_Date : value -> option Z
}.

(** ** Zod schemas *)

Inductive ZodType : Type :=
| z_string
| z_number
| z_boolean
| z_unknown
| z_coerce_string
| z_coerce_date
| z_nullable (t : ZodType)
| z_record (t : ZodType)
| z_array (t : ZodType)
| z_object (shape : list (string * ZodType)).

Record ZodIssue : Type := mkIssue { code : string; path : list value }.

Definition ZodError : Type := list ZodIssue.

Definition invalid_type (p : list value) : ZodError + value :=
  inl [mkIssue "invalid_type" p].

(** Zod validates every element and reports the issues of all of them. *)
Definition merge_item {A : Type} (x : ZodError + A) (rest : ZodError + list A)
  : ZodError + list A :=
  match x, rest with
  | inr a, inr l => inr (a :: l)
  | inl e, inr _ => inl e
  | inr _, inl e => inl e
  | inl e1, inl e2 => inl (e1 ++ e2)%list
  end.

(** An object key is written when its parsed value is defined or the key
    was present in the input. *)
Definition merge_key (k : string) (present : bool) (x : ZodError + value)
  (rest : ZodError + list (string * value)) : ZodError + list (string * value) :=
  match x, rest with
  | inr a, inr l =>
      match a, present with
      | VUndefined, false => inr l
      | _, _ => inr ((k, a) :: l)
      end
  | inl e, inr _ => inl e
  | inr _, inl e => inl e
  | inl e1, inl e2 => inl (e1 ++ e2)%list
  end.

Definition wrap {A : Type} (f : A -> value) (x : ZodError + A) : ZodError + value :=
  match x with
  | inl e => inl e
  | inr a => inr (f a)
  end.

Section Zod.
Variable rt : Runtime.

Fixpoint parse_at (t : ZodType) (p : list value) (v : value) : ZodError + value :=
  match t with
  | z_string => match v with VStr _ => inr v | _ => invalid_type p end
  | z_number => match v with VNum _ => inr v | _ => invalid_type p end
  | z_boolean => match v with VBool _ => inr v | _ => invalid_type p end
  | z_unknown => inr v
  | z_coerce_string => inr (VStr (js_String rt v))
  | z_coerce_date =>
      match js_Date rt v with
      | Some ms => inr (VDate ms)
      | None => inl [mkIssue "invalid_date" p]
      end
  | z_nullable t' =>
      match v with
      | VNull => inr VNull
      | _ => parse_at t' p v
      end
  | z_record t' =>
      match v with
      | VObj ps =>
          wrap VObj
            ((fix go (ps : list (string * value)) :=
                match ps with
                | [] => inr []
                | (k, x) :: rest =>
                    merge_key k true (parse_at t' (p ++ [VStr k])%list x) (go rest)
                end) ps)
      | _ => invalid_type p
      end
  | z_array t' =>
      match v with
      | VArr items =>
          wrap VArr
            ((fix go (i : Z) (items : list value) :=
                match items with
                | [] => inr []
                | x :: rest =>
                    merge_item (parse_at t' (p ++ [VNum i])%list x) (go (i + 1) rest)
                end) 0 items)
      | _ => invalid_type p
      end
  | z_object shape =>
      match v with
      | VObj ps =>
          wrap VObj
            ((fix go (shape : list (string * ZodType)) :=
                match shape with
                | [] => inr []
                | (k, t') :: rest =>
                    merge_key k (bool_decide (is_Some (assoc k ps)))
                      (parse_at t' (p ++ [VStr k])%list (get_prop k ps)) (go rest)
                end) shape)
      | _ => invalid_type p
      end
  end.

(** [schema.safeParse(v)] *)
Definition safeParse (t : ZodType) (v : value) : ZodError + value :=
  parse_at t [] v.
End Zod.

Definition RawCronPayloadSchema : ZodType :=
  z_object [("_cron", z_object [("ts", z_coerce_date); ("backfilled", z_boolean)])].

Definition GraphileJobSchema : ZodType :=
  z_object
    [("id", z_coerce_string);
     ("queue_name", z_nullable z_string);
     ("task_identifier", z_string);
     ("payload", z_unknown);
     ("priority", z_number);
     ("run_at", z_coerce_date);
     ("attempts", z_number);
     ("max_attempts", z_number);
     ("last_error", z_nullable z_string);
     ("created_at", z_coerce_date);
     ("updated_at", z_coerce_date);
     ("key", z_nullable z_string);
     ("revision", z_number);
     ("locked_at", z_nullable z_coerce_date);
     ("locked_by", z_nullable z_string);
     ("flags", z_nullable (z_record z_boolean))].

Definition AddJobResultsSchema : ZodType := z_array GraphileJobSchema.

(** [JSON.stringify(error)] for a [ZodError]: the error serialises its
    issue list. *)
Definition ZodIssue_value (i : ZodIssue) : value :=
  VObj [("code", VStr (code i)); ("path", VArr (path i))].

Definition ZodError_value (e : ZodError) : value :=
  VObj [("issues", VArr (map ZodIssue_value e)); ("name", VStr "ZodError")].

(** ** Data model of the worker *)

(** Handles of the collaborators: a Prisma client or transaction, and a
    running graphile-worker runner. *)
Definition Tx : Type := nat.
Definition Runner : Type := nat.

(** A graphile job object, as the engine hands it over or as it is parsed
    from a result row. *)
Definition GraphileJob : Type := value.

Inductive JobKeyMode : Type := replace | preserve_run_at | unsafe_dedupe.

Definition JobKeyMode_string (m : JobKeyMode) : string :=
  match m with
  | replace => "replace"
  | preserve_run_at => "preserve_run_at"
  | unsafe_dedupe => "unsafe_dedupe"
  end.

(** [queueName?: string | ((payload) => string)] *)
Inductive QueueName : Type :=
| QueueStatic (s : string)
| QueueFn (f : value -> string).

(** An entry of [ZodTasks].  An optional property that is not written in
    the task declaration is [None]. *)
Record ZodTask : Type := {
  task_queueName : option QueueName;
  task_priority : option Z;
  task_maxAttempts : option Z;
  task_jobKeyMode : option JobKeyMode;
  task_flags : option (list string);
  task_handler : value -> GraphileJob -> outcome unit
}.

(** An entry of [ZodRecurringTasks]. *)
Record ZodRecurringTask : Type := {
  pattern : string;
  options : value;
  recurring_handler : value -> GraphileJob -> outcome unit
}.

(** graphile-worker's [TaskSpec] *)
Record TaskSpec : Type := {
  queueName : option string;
  runAt : option Z;
  maxAttempts : option Z;
  jobKey : option string;
  priority : option Z;
  flags : option (list string);
  jobKeyMode : option JobKeyMode
}.

Definition empty_spec : TaskSpec :=
  {| queueName := None; runAt := None; maxAttempts := None; jobKey := None;
     priority := None; flags := None; jobKeyMode := None |}.

(** [ZodWorkerEnqueueOptions = TaskSpec & { tx? }] *)
Record ZodWorkerEnqueueOptions : Type := {
  enqueue_spec : TaskSpec;
  enqueue_tx : option Tx
}.

Record ZodWorkerDequeueOptions : Type := { dequeue_tx : option Tx }.

Record CronItem : Type := {
  cron_pattern : string;
  cron_identifier : string;
  cron_task : string;
  cron_options : value
}.

(** An entry of the task list given to the engine.  The two closures the
    class creates differ only in the method they call and the key they
    captured. *)
Inductive Task : Type :=
| MessageTask (key : string)
| RecurringTask (key : string).

(** A message schema of the catalog: any zod schema, seen through its
    [parse]. *)
Definition MessageSchema : Type := value -> ZodError + value.

(** The constructor's options, which the private fields copy. *)
Record ZodWorkerOptions : Type := {
  runnerOptions : value;
  prisma : Tx;
  schema : gmap string MessageSchema;
  tasks : gmap string ZodTask;
  recurringTasks : option (gmap string ZodRecurringTask)
}.

(** ** Calls observed by collaborators *)

(** A call of a set-returning SQL function with named arguments, each bound
    to a positional placeholder and cast: [name => $n::type]. *)
Record SqlCall : Type := {
  sql_function : string;
  sql_arguments : list (string * (nat * string))
}.

Inductive LogLevel : Type := debug | error.

Inductive LogField : Type :=
| LVal (v : value)
| LSpec (s : TaskSpec)
| LErr (e : JsError).

Inductive Event : Type :=
| Log (level : LogLevel) (msg : string) (fields : list (string * LogField))
| GraphileRun (opts : value) (taskList : gmap string Task) (parsedCronItems : value)
| RunnerStop (r : Runner)
| QueryRawUnsafe (tx : Tx) (sql : SqlCall) (values : list value)
| HandlerCall (t : Task) (payload : value) (job : GraphileJob).

(** The collaborators.  Each oracle receives the calls made so far. *)
Record Collaborators : Type := {
  parseCronItems : list CronItem -> outcome value;
  graphileRun : list Event -> outcome (option Runner);
  runner_stop : list Event -> outcome unit;
  queryRawUnsafe : list Event -> outcome value
}.

(** ** The monad of the methods *)

Record State : Type := { runner : option Runner; trace : list Event }.

Definition M (A : Type) : Type := State -> outcome A * State.

Definition ret {A : Type} (a : A) : M A := fun s => (Return a, s).

Definition throw {A : Type} (e : JsError) : M A := fun s => (Throw e, s).

Definition bind {A B : Type} (m : M A) (k : A -> M B) : M B :=
  fun s =>
    match m s with
    | (Return a, s') => k a s'
    | (Throw e, s') => (Throw e, s')
    end.

(** [try { m } catch (e) { h e }] *)
Definition try_catch {A : Type} (m : M A) (h : JsError -> M A) : M A :=
  fun s =>
    match m s with
    | (Return a, s') => (Return a, s')
    | (Throw e, s') => h e s'
    end.

Definition get_runner : M (option Runner) := fun s => (Return (runner s), s).

Definition set_runner (r : option Runner) : M unit :=
  fun s => (Return tt, {| runner := r; trace := trace s |}).

(** Record a call, then let the collaborator answer it. *)
Definition call {A : Type} (e : Event) (answer : list Event -> outcome A) : M A :=
  fun s =>
    let tr := (trace s ++ [e])%list in
    (answer tr, {| runner := runner s; trace := tr |}).

Definition log (level : LogLevel) (msg : string) (fields : list (string * LogField))
  : M unit :=
  call (Log level msg fields) (fun _ => Return tt).

Definition lift {A : Type} (o : outcome A) : M A := fun s => (o, s).

Declare Scope worker_scope.
Delimit Scope worker_scope with worker.
Notation "x <- c ;; k" := (bind c (fun x => k))
  (at level 100, c at next level, right associativity) : worker_scope.
Notation "c ;;; k" := (bind c (fun _ => k))
  (at level 100, right associativity) : worker_scope.
Open Scope worker_scope.

(** ** The SQL text of the two gateway operations *)

Definition add_job_sql : SqlCall :=
  {| sql_function := "graphile_worker.add_job";
     sql_arguments :=
       [("identifier", (1%nat, "text"));
        ("payload", (2%nat, "json"));
        ("queue_name", (3%nat, "text"));
        ("run_at", (4%nat, "timestamptz"));
        ("max_attempts", (5%nat, "int"));
        ("job_key", (6%nat, "text"));
        ("priority", (7%nat, "int"));
        ("flags", (8%nat, "text[]"));
        ("job_key_mode", (9%nat, "text"))] |}.

Definition remove_job_sql : SqlCall :=
  {| sql_function := "graphile_worker.remove_job";
     sql_arguments := [("job_key", (1%nat, "text"))] |}.

(** The value a query binds to the named argument [arg]: the one at the
    position of its placeholder ([$1] is the first value). *)
Definition bound_argument (sql : SqlCall) (values : list value) (arg : string)
  : option value :=
  match assoc arg (sql_arguments sql) with
  | Some (S n, _) => values !! n
  | _ => None
  end.

(** Optional fields as JavaScript values. *)
Definition of_string (o : option string) : value :=
  match o with Some s => VStr s | None => VUndefined end.

Definition of_number (o : option Z) : value :=
  match o with Some n => VNum n | None => VUndefined end.

Definition of_date (o : option Z) : value :=
  match o with Some ms => VDate ms | None => VUndefined end.

Definition of_flags (o : option (list string)) : value :=
  match o with Some l => VArr (map VStr l) | None => VUndefined end.

Definition of_jobKeyMode (o : option JobKeyMode) : value :=
  match o with Some m => VStr (JobKeyMode_string m) | None => VUndefined end.

(** [a[0]] *)
Definition first (v : value) : value :=
  match v with
  | VArr (x :: _) => x
  | _ => VUndefined
  end.

(** In [{...a, ...b}] a property of [b] wins when [b] has it. *)
Definition spread {A : Type} (a b : option A) : option A :=
  match b with
  | Some _ => b
  | None => a
  end.

Record JobHelpers : Type := { job : GraphileJob }.

(** ** The class *)

Section ZodWorker.
Variable rt : Runtime.
Variable env : Collaborators.
Variable this : ZodWorkerOptions.

Definition template (v : value) : string := js_String rt v.

Definition createTaskListFromTasks : gmap string Task :=
  let taskList :=
    foldl (fun (taskList : gmap string Task) (entry : string * ZodTask) =>
             <[entry.1 := MessageTask entry.1]> taskList)
      ∅ (map_to_list (tasks this)) in
  foldl (fun (taskList : gmap string Task) (entry : string * ZodRecurringTask) =>
           <[entry.1 := RecurringTask entry.1]> taskList)
    taskList (map_to_list (default ∅ (recurringTasks this))).

Definition createCronItemsFromRecurringTasks : list CronItem :=
  match recurringTasks this with
  | None => []
  | Some recurring =>
      map (fun entry : string * ZodRecurringTask =>
             {| cron_pattern := pattern entry.2;
                cron_identifier := entry.1;
                cron_task := entry.1;
                cron_options := options entry.2 |})
        (map_to_list recurring)
  end.

Definition initialize : M bool :=
  r <- get_runner ;;
  match r with
  | Some _ => ret true
  | None =>
      log debug "Initializing worker queue with options"
        [("runnerOptions", LVal (runnerOptions this))] ;;;
      parsedCronItems <- lift (parseCronItems env createCronItemsFromRecurringTasks) ;;
      started <- call (GraphileRun (runnerOptions this) createTaskListFromTasks
                         parsedCronItems) (graphileRun env) ;;
      set_runner started ;;;
      match started with
      | None => throw (Error "Failed to initialize worker queue")
      | Some _ => ret true
      end
  end.

Definition stop : M unit :=
  r <- get_runner ;;
  match r with
  | None => ret tt
  | Some h => call (RunnerStop h) (runner_stop env)
  end.

(** The values [#addJob] passes after the SQL text, in order. *)
Definition add_job_values (identifier : string) (payload : value) (spec : TaskSpec)
  : list value :=
  [VStr identifier;
   JSON_stringify rt payload;
   js_or (of_string (queueName spec)) VNull;
   js_or (of_date (runAt spec)) VNull;
   js_or (of_number (maxAttempts spec)) VNull;
   js_or (of_string (jobKey spec)) VNull;
   js_or (of_number (priority spec)) VNull;
   js_or (of_jobKeyMode (jobKeyMode spec)) VNull;
   js_or (of_flags (flags spec)) VNull].

Definition addJob (identifier : string) (payload : value) (spec : TaskSpec) (tx : Tx)
  : M GraphileJob :=
  results <- call (QueryRawUnsafe tx add_job_sql (add_job_values identifier payload spec))
               (queryRawUnsafe env) ;;
  match safeParse rt AddJobResultsSchema results with
  | inl zerr =>
      throw (Error ("Failed to add job to queue, zod parsing error: "
                    ++ template (JSON_stringify rt (ZodError_value zerr))))
  | inr rows => ret (first rows)
  end.

Definition removeJob (jobKey : string) (tx : Tx) : M GraphileJob :=
  try_catch
    (result <- call (QueryRawUnsafe tx remove_job_sql [VStr jobKey])
                 (queryRawUnsafe env) ;;
     match safeParse rt AddJobResultsSchema result with
     | inl zerr =>
         throw (Error ("Failed to remove job from queue, zod parsing error: "
                       ++ template (JSON_stringify rt (ZodError_value zerr))))
     | inr rows => ret (first rows)
     end)
    (fun e => throw (Error ("Failed to remove job from queue, "
                            ++ Error_toString e ++ "}"))).

(** The [spec] object of [enqueue]: the caller's options without [tx],
    spread under the task's own properties, with a queue-name function
    replaced by its value at the payload. *)
Definition enqueue_task_spec (optionsWithoutTx : TaskSpec) (task : ZodTask)
  (payload : value) : TaskSpec :=
  {| queueName :=
       match task_queueName task with
       | Some (QueueFn f) => Some (f payload)
       | Some (QueueStatic s) => Some s
       | None => queueName optionsWithoutTx
       end;
     runAt := runAt optionsWithoutTx;
     maxAttempts := spread (maxAttempts optionsWithoutTx) (task_maxAttempts task);
     jobKey := jobKey optionsWithoutTx;
     priority := spread (priority optionsWithoutTx) (task_priority task);
     flags := spread (flags optionsWithoutTx) (task_flags task);
     jobKeyMode := spread (jobKeyMode optionsWithoutTx) (task_jobKeyMode task) |}.

Definition enqueue (identifier : string) (payload : value)
  (opts : option ZodWorkerEnqueueOptions) : M GraphileJob :=
  r <- get_runner ;;
  match r with
  | None => throw (Error "Worker not initialized")
  | Some _ =>
      match tasks this !! identifier with
      | None =>
          throw {| name := "TypeError";
                   message := "Cannot read properties of undefined (reading 'queueName')" |}
      | Some task =>
          let optionsWithoutTx := default empty_spec (enqueue_spec <$> opts) in
          let spec := enqueue_task_spec optionsWithoutTx task payload in
          job <- addJob identifier payload spec
                   (default (prisma this) (opts ≫= enqueue_tx)) ;;
          log debug "Enqueued worker task"
            [("identifier", LVal (VStr identifier)); ("payload", LVal payload);
             ("spec", LSpec spec); ("job", LVal job)] ;;;
          ret job
      end
  end.

Definition dequeue (jobKey : string) (opts : option ZodWorkerDequeueOptions)
  : M GraphileJob :=
  r <- get_runner ;;
  match r with
  | None => throw (Error "Worker not initialized")
  | Some _ =>
      job <- removeJob jobKey (default (prisma this) (opts ≫= dequeue_tx)) ;;
      log debug "dequeued worker task" [("job", LVal job)] ;;;
      ret job
  end.

(** The error [schema.parse] throws. *)
Definition ZodError_thrown (zerr : ZodError) : JsError :=
  {| name := "ZodError";
     message := template (JSON_stringify rt (VArr (map ZodIssue_value zerr))) |}.

Definition handleMessage (typeName : string) (rawPayload : value) (helpers : JobHelpers)
  : M unit :=
  match schema this !! typeName with
  | None => throw (Error ("Unknown message type: " ++ typeName))
  | Some messageSchema =>
      match messageSchema rawPayload with
      | inl zerr => throw (ZodError_thrown zerr)
      | inr payload =>
          let job := job helpers in
          log debug "Received worker task, calling handler"
            [("type", LVal (VStr typeName)); ("payload", LVal payload);
             ("job", LVal job)] ;;;
          match tasks this !! typeName with
          | None => throw (Error ("No task for message type: " ++ typeName))
          | Some task =>
              call (HandlerCall (MessageTask typeName) payload job)
                (fun _ => task_handler task payload job)
          end
      end
  end.

Definition handleRecurringTask (typeName : string) (rawPayload : value)
  (helpers : JobHelpers) : M unit :=
  let job := job helpers in
  log debug "Received recurring task, calling handler"
    [("type", LVal (VStr typeName)); ("payload", LVal rawPayload);
     ("job", LVal job)] ;;;
  match recurringTasks this ≫= (fun recurring => recurring !! typeName) with
  | None => throw (Error ("No recurring task for message type: " ++ typeName))
  | Some recurringTask =>
      match safeParse rt RawCronPayloadSchema rawPayload with
      | inl zerr =>
          throw (Error ("Failed to parse recurring task payload: "
                        ++ template (JSON_stringify rt (ZodError_value zerr))))
      | inr payload =>
          try_catch
            (call (HandlerCall (RecurringTask typeName) (prop payload "_cron") job)
               (fun _ => recurring_handler recurringTask (prop payload "_cron") job))
            (fun e =>
               log error "Failed to handle recurring task"
                 [("error", LErr e); ("payload", LVal payload)] ;;;
               throw e)
      end
  end.

(** Running an entry of the task list. *)
Definition run_task (t : Task) (payload : value) (helpers : JobHelpers) : M unit :=
  match t with
  | MessageTask key => handleMessage key payload helpers
  | RecurringTask key => handleRecurringTask key payload helpers
  end.
End ZodWorker.

(** The state of a worker that was just constructed. *)
Definition constructed : State := {| runner := None; trace := [] |}.

Definition is_GraphileRun (e : Event) : bool :=
  match e with
  | GraphileRun _ _ _ => true
  | _ => false
  end.

(** How many times the engine was started in a trace. *)
Definition engine_starts (tr : list Event) : nat :=
  length (List.filter is_GraphileRun tr).

(** ** Vocabulary of the statements *)

(** The state after further calls. *)
Definition after (s : State) (events : list Event) : State :=
  {| runner := runner s; trace := (trace s ++ events)%list |}.

(** The envelope shape [{_cron: {ts: timestamp, backfilled: boolean}}],
    read off a raw payload: the time [ts] denotes and the flag. *)
Definition cron_envelope (rt : Runtime) (rawPayload : value) : option (Z * bool) :=
  match rawPayload with
  | VObj ps =>
      match get_prop "_cron" ps with
      | VObj cs =>
          match js_Date rt (get_prop "ts" cs), get_prop "backfilled" cs with
          | Some ms, VBool b => Some (ms, b)
          | _, _ => None
          end
      | _ => None
      end
  | _ => None
  end.

(** The payload a recurring handler receives. *)
Definition RecurringTaskPayload (ms : Z) (b : bool) : value :=
  VObj [("ts", VDate ms); ("backfilled", VBool b)].

(** The entry [#handleRecurringTask] logs on receipt. *)
Definition received (typeName : string) (rawPayload : value) (helpers : JobHelpers)
  : Event :=
  Log debug "Received recurring task, calling handler"
    [("type", LVal (VStr typeName)); ("payload", LVal rawPayload);
     ("job", LVal (job helpers))].

Definition is_error_log (e : Event) : bool :=
  match e with
  | Log error _ _ => true
  | _ => false
  end.

(** ** A concrete worker, used to run the model *)

Module Demo.
Definition rt : Runtime :=
  {| JSON_stringify := fun v =>
       match v with
       | VUndefined => VUndefined
       | VStr s => VStr s
       | _ => VStr "{}"
       end;
     js_String := fun v =>
       match v with
       | VStr s => s
       | _ => "undefined"
       end;
     js_Date := fun v =>
       match v with
       | VDate ms => Some ms
       | VNum n => Some n
       | VStr s => if String.eqb s "2024-01-01T00:00:00Z" then Some 1704067200000 else None
       | _ => None
       end |}.

(** An engine that starts, stops and answers every query with no row. *)
Definition env : Collaborators :=
  {| parseCronItems := fun items => Return (VArr (map (fun i => VStr (cron_identifier i)) items));
     graphileRun := fun _ => Return (Some 7%nat);
     runner_stop := fun _ => Return tt;
     queryRawUnsafe := fun _ => Return (VArr []) |}.

(** An engine whose queries all fail. *)
Definition failing_env : Collaborators :=
  {| parseCronItems := parseCronItems env;
     graphileRun := graphileRun env;
     runner_stop := runner_stop env;
     queryRawUnsafe := fun _ => Throw (Error "connection closed") |}.

Definition quiet : value -> GraphileJob -> outcome unit := fun _ _ => Return tt.

Definition email : ZodTask :=
  {| task_queueName := Some (QueueFn (fun payload => template rt (prop payload "to")));
     task_priority := Some 0;
     task_maxAttempts := Some 3;
     task_jobKeyMode := Some replace;
     task_flags := Some ["urgent"];
     task_handler := quiet |}.

Definition unqueued : ZodTask :=
  {| task_queueName := Some (QueueFn (fun _ => ""));
     task_priority := None;
     task_maxAttempts := None;
     task_jobKeyMode := None;
     task_flags := None;
     task_handler := quiet |}.

Definition cleanup : ZodRecurringTask :=
  {| pattern := "0 * * * *"; options := VUndefined; recurring_handler := quiet |}.

Definition accept_object : MessageSchema := fun v =>
  match v with
  | VObj _ => inr v
  | _ => invalid_type []
  end.

Definition worker : ZodWorkerOptions :=
  {| runnerOptions := VObj [("concurrency", VNum 5)];
     prisma := 0%nat;
     schema := {["email" := accept_object; "unqueued" := accept_object;
                 "cleanup" := accept_object]};
     tasks := {["email" := email; "unqueued" := unqueued; "cleanup" := email]};
     recurringTasks := Some {["cleanup" := cleanup]} |}.

Definition started : State := {| runner := Some 7%nat; trace := [] |}.

Definition helpers : JobHelpers := {| job := VObj [("id", VStr "41")] |}.

Definition welcome : value := VObj [("to", VStr "a@b.c")].

(** The envelope of a cron firing, and one whose [ts] is not a time. *)
Definition fired : value :=
  VObj [("_cron", VObj [("ts", VStr "2024-01-01T00:00:00Z"); ("backfilled", VBool false)])].

Definition malformed : value :=
  VObj [("_cron", VObj [("ts", VStr "soon"); ("backfilled", VBool false)])].
End Demo.


(** ** Sequences of calls *)

(** What can happen to a worker: its four public methods, and the engine
    running an entry of the task list. *)
Inductive Call : Type :=
| CallInitialize
| CallStop
| CallEnqueue (identifier : string) (payload : value)
    (opts : option ZodWorkerEnqueueOptions)
| CallDequeue (jobKey : string) (opts : option ZodWorkerDequeueOptions)
| CallTask (t : Task) (payload : value) (helpers : JobHelpers).

(** The state a call leaves, whether it returned or threw. *)
Definition run_call (rt : Runtime) (env : Collaborators) (this : ZodWorkerOptions)
  (c : Call) (s : State) : State :=
  match c with
  | CallInitialize => (initialize env this s).2
  | CallStop => (stop env s).2
  | CallEnqueue identifier payload opts => (enqueue rt env this identifier payload opts s).2
  | CallDequeue jobKey opts => (dequeue rt env this jobKey opts s).2
  | CallTask t payload helpers => (run_task rt this t payload helpers s).2
  end.

Definition run_calls (rt : Runtime) (env : Collaborators) (this : ZodWorkerOptions)
  (cs : list Call) (s : State) : State :=
  foldl (fun s c => run_call rt env this c s) s cs.

Definition is_HandlerCall (e : Event) : bool :=
  match e with
  | HandlerCall _ _ _ => true
  | _ => false
  end.

Definition is_QueryRawUnsafe (e : Event) : bool :=
  match e with
  | QueryRawUnsafe _ _ _ => true
  | _ => false
  end.

(** The entry [#handleMessage] logs before it calls the handler. *)
Definition received_message (typeName : string) (payload : value) (helpers : JobHelpers)
  : Event :=
  Log debug "Received worker task, calling handler"
    [("type", LVal (VStr typeName)); ("payload", LVal payload);
     ("job", LVal (job helpers))].

(** The entry [initialize] logs before it starts the engine. *)
Definition initializing (this : ZodWorkerOptions) : Event :=
  Log debug "Initializing worker queue with options"
    [("runnerOptions", LVal (runnerOptions this))].

(** A step that keeps the handle of the worker and does not start the
    engine. *)
Definition keeps_lifecycle (s s' : State) : Prop :=
  runner s' = runner s ∧ engine_starts (trace s') = engine_starts (trace s).

(** ** The shape of a job record *)

Definition is_string (v : value) : bool :=
  match v with VStr _ => true | _ => false end.

Definition is_number (v : value) : bool :=
  match v with VNum _ => true | _ => false end.

Definition is_boolean (v : value) : bool :=
  match v with VBool _ => true | _ => false end.

Definition is_date (v : value) : bool :=
  match v with VDate _ => true | _ => false end.

Definition or_null (check : value -> bool) (v : value) : bool :=
  match v with VNull => true | _ => check v end.

(** An object all of whose properties are booleans. *)
Definition is_flag_record (v : value) : bool :=
  match v with
  | VObj ps => forallb (fun entry : string * value => is_boolean entry.2) ps
  | _ => false
  end.

(** The type [GraphileJob] that [enqueue] and [dequeue] promise, as far as
    [GraphileJobSchema] checks it. *)
Definition job_record (v : value) : bool :=
  match v with
  | VObj ps =>
      is_string (get_prop "id" ps)
      && or_null is_string (get_prop "queue_name" ps)
      && is_string (get_prop "task_identifier" ps)
      && is_number (get_prop "priority" ps)
      && is_date (get_prop "run_at" ps)
      && is_number (get_prop "attempts" ps)
      && is_number (get_prop "max_attempts" ps)
      && or_null is_string (get_prop "last_error" ps)
      && is_date (get_prop "created_at" ps)
      && is_date (get_prop "updated_at" ps)
      && or_null is_string (get_prop "key" ps)
      && is_number (get_prop "revision" ps)
      && or_null is_date (get_prop "locked_at" ps)
      && or_null is_string (get_prop "locked_by" ps)
      && or_null is_flag_record (get_prop "flags" ps)
  | _ => false
  end.

(** The loop of the object parser over the shape, by name. *)
Fixpoint parse_shape (rt : Runtime) (shape : list (string * ZodType)) (p : list value)
  (ps : list (string * value)) : ZodError + list (string * value) :=
  match shape with
  | [] => inr []
  | (k, t) :: rest =>
      merge_key k (bool_decide (is_Some (assoc k ps)))
        (parse_at rt t (p ++ [VStr k])%list (get_prop k ps)) (parse_shape rt rest p ps)
  end.

(** ** The auth config file of the CLI

    Embedding of the auth config functions of [configFiles.ts].  The file
    system is a state: the files by path, the directories made, and the
    debug entries logged.  What the platform provides is a record:
    the text of files, [JSON.stringify] into text, the helper
    [readJSONFileSync] of the CLI (file [fileSystem.js]), [path.join],
    [path.dirname] and the config folder that [xdg-app-paths] answers.

    An object that maps profile names to configs is a finite map; a lookup
    in it is a lookup of an own property.  Statements say so where a
    profile name must not be a member of [Object.prototype]. *)

Record UserAuthConfig : Type := {
  accessToken : option string;
  apiUrl : option string
}.

(** [z.string().optional()] *)
Definition optional_string (v : value) : option (option string) :=
  match v with
  | VUndefined => Some None
  | VStr s => Some (Some s)
  | _ => None
  end.

(** [UserAuthConfigSchema.parse]; [None] when it throws.  Unknown keys are
    dropped. *)
Definition UserAuthConfigSchema_parse (v : value) : option UserAuthConfig :=
  match v with
  | VObj ps =>
      match optional_string (get_prop "accessToken" ps),
            optional_string (get_prop "apiUrl" ps) with
      | Some token, Some url => Some {| accessToken := token; apiUrl := url |}
      | _, _ => None
      end
  | _ => None
  end.

Fixpoint parse_profiles (ps : list (string * value))
  : option (list (string * UserAuthConfig)) :=
  match ps with
  | [] => Some []
  | (k, x) :: rest =>
      match UserAuthConfigSchema_parse x, parse_profiles rest with
      | Some config, Some l => Some ((k, config) :: l)
      | _, _ => None
      end
  end.

(** [UserAuthConfigFileSchema.parse], the record of [UserAuthConfigSchema];
    [None] when it throws. *)
Definition UserAuthConfigFileSchema_parse (v : value)
  : option (gmap string UserAuthConfig) :=
  match v with
  | VObj ps => list_to_map <$> parse_profiles ps
  | _ => None
  end.

(** The object of a config, with the properties that are set. *)
Definition UserAuthConfig_value (config : UserAuthConfig) : value :=
  VObj (match accessToken config with
        | Some token => [("accessToken", VStr token)]
        | None => []
        end
        ++ match apiUrl config with
           | Some url => [("apiUrl", VStr url)]
           | None => []
           end)%list.

(** The object of a config file. *)
Definition UserAuthConfigFile_value (file : gmap string UserAuthConfig) : value :=
  VObj (prod_map id UserAuthConfig_value <$> map_to_list file).

Record Platform : Type := {
  Text : Type;
  JSON_text : value -> Text;
  readJSONFileSync : gmap string Text -> string -> outcome value;
  path_join : list string -> string;
  path_dirname : string -> string;
  config_dir : string
}.

Inductive ReadError : Type :=
| FileError (e : JsError)
| SchemaError.

Inductive DebugEntry : Type :=
| ReadingAuthConfigFile (authConfigFilePath : string)
| ErrorReadingAuthConfigFile (cause : ReadError).

Record FileSystem (pf : Platform) : Type := {
  files : gmap string (Text pf);
  directories : gset string;
  debug_log : list DebugEntry
}.
Arguments files {pf} _.
Arguments directories {pf} _.
Arguments debug_log {pf} _.

(** The names every object inherits from [Object.prototype]. *)
Definition Object_prototype_names : list string :=
  ["__proto__"; "constructor"; "hasOwnProperty"; "isPrototypeOf";
   "propertyIsEnumerable"; "toLocaleString"; "toString"; "valueOf";
   "__defineGetter__"; "__defineSetter__"; "__lookupGetter__"; "__lookupSetter__"].

Section AuthConfigFile.
Variable pf : Platform.

Definition logger_debug (entry : DebugEntry) (fs : FileSystem pf) : FileSystem pf :=
  {| files := files fs; directories := directories fs;
     debug_log := (debug_log fs ++ [entry])%list |}.

Definition getGlobalConfigFolderPath : string := config_dir pf.

Definition getAuthConfigFilePath : string :=
  path_join pf [getGlobalConfigFolderPath; "default.json"].

(** The body of the [try] that both readers share: the parsed file. *)
Definition read_parsed (fs : FileSystem pf)
  : option (gmap string UserAuthConfig) * FileSystem pf :=
  let authConfigFilePath := getAuthConfigFilePath in
  let fs := logger_debug (ReadingAuthConfigFile authConfigFilePath) fs in
  match readJSONFileSync pf (files fs) authConfigFilePath with
  | Throw e => (None, logger_debug (ErrorReadingAuthConfigFile (FileError e)) fs)
  | Return json =>
      match UserAuthConfigFileSchema_parse json with
      | None => (None, logger_debug (ErrorReadingAuthConfigFile SchemaError) fs)
      | Some parsed => (Some parsed, fs)
      end
  end.

Definition readAuthConfigFile (fs : FileSystem pf)
  : option (gmap string UserAuthConfig) * FileSystem pf :=
  read_parsed fs.

Definition readAuthConfigProfile (profile : option string) (fs : FileSystem pf)
  : option UserAuthConfig * FileSystem pf :=
  let profile := default "default" profile in
  let (parsed, fs) := read_parsed fs in
  (parsed ≫= (fun parsed => parsed !! profile), fs).

Definition writeAuthConfigFile (config : gmap string UserAuthConfig) (fs : FileSystem pf)
  : FileSystem pf :=
  let authConfigFilePath := getAuthConfigFilePath in
  {| files := <[path_join pf [authConfigFilePath]
                := JSON_text pf (UserAuthConfigFile_value config)]> (files fs);
     directories := {[path_dirname pf authConfigFilePath]} ∪ directories fs;
     debug_log := debug_log fs |}.

Definition writeAuthConfigProfile (config : UserAuthConfig) (profile : option string)
  (fs : FileSystem pf) : FileSystem pf :=
  let profile := default "default" profile in
  let (existing, fs) := readAuthConfigFile fs in
  let existingConfig := default ∅ existing in
  writeAuthConfigFile (<[profile := config]> existingConfig) fs.
End AuthConfigFile.

(** The platform keeps its word: a path that [path.join] made is what
    [path.join] makes of it alone, and a file holding the text of a config
    file object reads back as that object. *)
Definition platform_ok (pf : Platform) : Prop :=
  (∀ parts, path_join pf [path_join pf parts] = path_join pf parts)
  ∧ ∀ (fls : gmap string (Text pf)) path (file : gmap string UserAuthConfig),
      fls !! path = Some (JSON_text pf (UserAuthConfigFile_value file)) →
      readJSONFileSync pf fls path = Return (UserAuthConfigFile_value file).

(** ** More concrete collaborators *)

Module Sample.
(** An engine that answers a start without a handle. *)
Definition no_handle_env : Collaborators :=
  {| parseCronItems := parseCronItems Demo.env;
     graphileRun := fun _ => Return None;
     runner_stop := runner_stop Demo.env;
     queryRawUnsafe := queryRawUnsafe Demo.env |}.

(** A row of the jobs table as the database driver hands it over. *)
Definition row : value :=
  VObj [("id", VStr "41"); ("queue_name", VNull); ("task_identifier", VStr "email");
        ("payload", Demo.welcome); ("priority", VNum 0); ("run_at", VDate 1704067200000);
        ("attempts", VNum 0); ("max_attempts", VNum 3); ("last_error", VNull);
        ("created_at", VDate 1704067200000); ("updated_at", VDate 1704067200000);
        ("key", VNull); ("revision", VNum 0); ("locked_at", VNull);
        ("locked_by", VNull); ("flags", VObj [("urgent", VBool true)]);
        ("job_queue_id", VNum 9)].

(** An engine that answers every query with that row. *)
Definition row_env : Collaborators :=
  {| parseCronItems := parseCronItems Demo.env;
     graphileRun := graphileRun Demo.env;
     runner_stop := runner_stop Demo.env;
     queryRawUnsafe := fun _ => Return (VArr [row]) |}.

(** A platform whose files hold JSON documents as they are. *)
Definition platform : Platform :=
  {| Text := value;
     JSON_text := fun v => v;
     readJSONFileSync := fun fls path =>
       match fls !! path with
       | Some v => Return v
       | None => Throw {| name := "Error"; message := "ENOENT: no such file or directory" |}
       end;
     path_join := String.concat "/";
     path_dirname := fun _ => "/home/dev/.config/trigger";
     config_dir := "/home/dev/.config/trigger" |}.

Definition no_files : FileSystem platform :=
  {| files := ∅; directories := ∅; debug_log := [] |}.

(** A config file with a profile whose token is not a string. *)
Definition damaged : FileSystem platform :=
  {| files :=
       {["/home/dev/.config/trigger/default.json"
         := VObj [("default", VObj [("accessToken", VStr "tr_pat_1")]);
                  ("staging", VObj [("accessToken", VNum 7)])]]};
     directories := {["/home/dev/.config/trigger"]};
     debug_log := [] |}.

Definition token : UserAuthConfig :=
  {| accessToken := Some "tr_pat_2"; apiUrl := Some "https://api.trigger.dev" |}.

End Sample.

(** ** Resolving a project config

    Embedding of [resolveConfig] of [configFiles.ts].  Of the type [Config]
    of the core package only the properties the function reads or writes
    are named; the others travel along in [config_rest].  The directory
    search, the directory resolution and the cloud URL come from other
    modules of the CLI and are a record. *)

Record Config : Type := {
  project : string;
  triggerDirectories : option (list string);
  triggerUrl : option string;
  projectDir : option string;
  config_rest : value
}.

Record ConfigModules : Type := {
  findTriggerDirectories : string -> outcome (list string);
  resolveTriggerDirectories : list string -> list string;
  CLOUD_API_URL : string
}.

Definition resolveConfig (modules : ConfigModules) (path : string) (config : Config)
  : outcome Config :=
  match
    match triggerDirectories config with
    | None => findTriggerDirectories modules path
    | Some given => Return given
    end
  with
  | Throw e => Throw e
  | Return dirs =>
      Return
        {| project := project config;
           triggerDirectories := Some (resolveTriggerDirectories modules dirs);
           triggerUrl :=
             if truthy (of_string (triggerUrl config)) then triggerUrl config
             else Some (CLOUD_API_URL modules);
           projectDir :=
             if truthy (of_string (projectDir config)) then projectDir config
             else Some path;
           config_rest := config_rest config |}
  end.

Module Project.
(** Modules whose directory search fails and whose resolution makes a
    directory absolute. *)
Definition absolute (dir : string) : string :=
  if String.prefix "/" dir then dir else "/app/" ++ dir.

Definition modules : ConfigModules :=
  {| findTriggerDirectories := fun _ => Throw (Error "EACCES: permission denied");
     resolveTriggerDirectories := map absolute;
     CLOUD_API_URL := "https://api.trigger.dev" |}.

Definition project_config : Config :=
  {| project := "proj_1234"; triggerDirectories := Some ["src/trigger"];
     triggerUrl := Some ""; projectDir := None; config_rest := VObj [] |}.
End Project.

(** ** The dispatch table *)

Section TaskList.
Context {V : Type}.
Variable entry_task : string -> Task.

(** Writing one entry per key of a list of object entries: the keys of
    the list end up bound to their own task, the others keep what the
    table had. *)
Lemma lookup_foldl_insert (l : list (string * V)) (table : gmap string Task) (k : string) :
  foldl (fun (taskList : gmap string Task) (entry : string * V) =>
           <[entry.1 := entry_task entry.1]> taskList) table l !! k
  = if decide (k ∈ l.*1) then Some (entry_task k) else table !! k.
Proof.
  revert table. induction l as [|[k' v] l IH]; intros table; cbn [foldl].
  - rewrite decide_False; [done | apply not_elem_of_nil].
  - rewrite IH, fmap_cons. cbn [fst]. destruct (decide (k ∈ l.*1)) as [Hl|Hl].
    + rewrite decide_True; [done | by apply elem_of_cons; right].
    + destruct (decide (k = k')) as [->|Hne].
      * rewrite decide_True; [by rewrite lookup_insert_eq | by apply elem_of_cons; left].
      * rewrite lookup_insert_ne by done.
        rewrite decide_False; [done |].
        rewrite elem_of_cons. intros [?|?]; done.
Qed.

Lemma elem_of_keys (m : gmap string V) (k : string) :
  k ∈ (map_to_list m).*1 ↔ is_Some (m !! k).
Proof.
  rewrite list_elem_of_fmap. split.
  - intros [[k' v] [-> Hin]]. apply elem_of_map_to_list in Hin. by exists v.
  - intros [v Hv]. exists (k, v). split; [done | by apply elem_of_map_to_list].
Qed.
End TaskList.

(** A parse fails with the issues the computation finds. *)
Ltac parse_fails := eexists; split; [|cbn; reflexivity]; done.

Section Properties.
Variable rt : Runtime.
Variable env : Collaborators.
Variable this : ZodWorkerOptions.

(** Every name of the table, by the registries that declare it. *)
Lemma lookup_createTaskListFromTasks (k : string) :
  createTaskListFromTasks this !! k
  = match default ∅ (recurringTasks this) !! k, tasks this !! k with
    | Some _, _ => Some (RecurringTask k)
    | None, Some _ => Some (MessageTask k)
    | None, None => None
    end.
Proof.
  unfold createTaskListFromTasks. rewrite !lookup_foldl_insert.
  destruct (default ∅ (recurringTasks this) !! k) as [r|] eqn:Hr.
  - rewrite decide_True; [done |]. apply elem_of_keys. by rewrite Hr.
  - rewrite decide_False.
    2:{ rewrite elem_of_keys, Hr. by intros [? ?]. }
    destruct (tasks this !! k) as [t|] eqn:Ht.
    + rewrite decide_True; [done |]. apply elem_of_keys. by rewrite Ht.
    + rewrite decide_False; [apply lookup_empty |].
      rewrite elem_of_keys, Ht. by intros [? ?].
Qed.


(** *** The gateway on a started worker *)

Lemma enqueue_started (s : State) (h : Runner) (identifier : string) (task : ZodTask)
  (payload : value) (opts : option ZodWorkerEnqueueOptions) :
  runner s = Some h →
  tasks this !! identifier = Some task →
  let spec := enqueue_task_spec (default empty_spec (enqueue_spec <$> opts)) task payload in
  let query :=
    QueryRawUnsafe (default (prisma this) (opts ≫= enqueue_tx)) add_job_sql
      (add_job_values rt identifier payload spec) in
  enqueue rt env this identifier payload opts s
  = match queryRawUnsafe env (trace s ++ [query])%list with
    | Throw e => (Throw e, after s [query])
    | Return results =>
        match safeParse rt AddJobResultsSchema results with
        | inl zerr =>
            (Throw (Error ("Failed to add job to queue, zod parsing error: "
                           ++ template rt (JSON_stringify rt (ZodError_value zerr)))),
             after s [query])
        | inr rows =>
            (Return (first rows),
             after s [query;
                      Log debug "Enqueued worker task"
                        [("identifier", LVal (VStr identifier));
                         ("payload", LVal payload);
                         ("spec", LSpec spec);
                         ("job", LVal (first rows))]])
        end
    end.
Proof.
  intros Hr Ht spec query. destruct s as [r tr]. cbn [runner] in Hr. subst r.
  unfold enqueue, addJob, bind, get_runner, log, call, throw, ret, after.
  rewrite Ht. cbn [trace runner]. fold spec. fold query.
  destruct (queryRawUnsafe env (tr ++ [query])) as [e|results]; [done|].
  destruct (safeParse rt AddJobResultsSchema results) as [zerr|rows]; [done|].
  cbn [trace runner]. by rewrite <- List.app_assoc.
Qed.

Lemma dequeue_started (s : State) (h : Runner) (jobKey : string)
  (opts : option ZodWorkerDequeueOptions) :
  runner s = Some h →
  let query :=
    QueryRawUnsafe (default (prisma this) (opts ≫= dequeue_tx)) remove_job_sql
      [VStr jobKey] in
  dequeue rt env this jobKey opts s
  = match queryRawUnsafe env (trace s ++ [query])%list with
    | Throw e =>
        (Throw (Error ("Failed to remove job from queue, " ++ Error_toString e ++ "}")),
         after s [query])
    | Return result =>
        match safeParse rt AddJobResultsSchema result with
        | inl zerr =>
            (Throw (Error ("Failed to remove job from queue, "
                           ++ Error_toString
                                (Error ("Failed to remove job from queue, zod parsing error: "
                                        ++ template rt (JSON_stringify rt (ZodError_value zerr))))
                           ++ "}")),
             after s [query])
        | inr rows =>
            (Return (first rows),
             after s [query; Log debug "dequeued worker task" [("job", LVal (first rows))]])
        end
    end.
Proof.
  intros Hr query. destruct s as [r tr]. cbn [runner] in Hr. subst r.
  unfold dequeue, removeJob, try_catch, bind, get_runner, log, call, throw, ret, after.
  cbn [trace runner]. fold query.
  destruct (queryRawUnsafe env (tr ++ [query])) as [e|result]; [done|].
  destruct (safeParse rt AddJobResultsSchema result) as [zerr|rows]; [done|].
  cbn [trace runner]. by rewrite <- List.app_assoc.
Qed.

(** On a started worker [enqueue] of a declared task issues the add-job
    query first, whatever happens next. *)
Lemma enqueue_issues_add_job (s : State) (h : Runner) (identifier : string)
  (task : ZodTask) (payload : value) (opts : option ZodWorkerEnqueueOptions) :
  runner s = Some h →
  tasks this !! identifier = Some task →
  ∃ rest,
    trace (enqueue rt env this identifier payload opts s).2
    = (trace s
       ++ QueryRawUnsafe (default (prisma this) (opts ≫= enqueue_tx)) add_job_sql
            (add_job_values rt identifier payload
               (enqueue_task_spec (default empty_spec (enqueue_spec <$> opts)) task payload))
          :: rest)%list.
Proof.
  intros Hr Ht. rewrite (enqueue_started s h identifier task payload opts Hr Ht).
  cbv zeta.
  destruct (queryRawUnsafe env _) as [e|results]; [by exists []|].
  destruct (safeParse rt AddJobResultsSchema results) as [zerr|rows]; [by exists []|].
  by eexists [_].
Qed.

Lemma dequeue_issues_remove_job (s : State) (h : Runner) (jobKey : string)
  (opts : option ZodWorkerDequeueOptions) :
  runner s = Some h →
  ∃ rest,
    trace (dequeue rt env this jobKey opts s).2
    = (trace s
       ++ QueryRawUnsafe (default (prisma this) (opts ≫= dequeue_tx)) remove_job_sql
            [VStr jobKey] :: rest)%list.
Proof.
  intros Hr. rewrite (dequeue_started s h jobKey opts Hr). cbv zeta.
  destruct (queryRawUnsafe env _) as [e|result]; [by exists []|].
  destruct (safeParse rt AddJobResultsSchema result) as [zerr|rows]; [by exists []|].
  by eexists [_].
Qed.

(** *** Lifecycle *)

(** C5.  While [#runner] is unset, that is on a worker whose
    [initialize] has not succeeded, [enqueue] and [dequeue] throw
    "Worker not initialized" for every argument and leave the state as
    it was: no query is issued. *)
Theorem gateway_requires_initialize (s : State) :
  runner s = None →
  (∀ identifier payload opts,
      enqueue rt env this identifier payload opts s
      = (Throw (Error "Worker not initialized"), s))
  ∧ (∀ jobKey opts,
      dequeue rt env this jobKey opts s
      = (Throw (Error "Worker not initialized"), s)).
Proof.
  intros Hr. split; intros.
  - unfold enqueue, bind, get_runner, throw. by rewrite Hr.
  - unfold dequeue, bind, get_runner, throw. by rewrite Hr.
Qed.

(** [#runner] is unset after construction and stays unset through a
    failed [initialize]. *)
Lemma initialize_failed_unset (s s' : State) (e : JsError) :
  runner s = None →
  initialize env this s = (Throw e, s') →
  runner s' = None.
Proof.
  intros Hr. unfold initialize, bind, get_runner, log, call, lift, set_runner, throw, ret.
  rewrite Hr. cbn [trace runner].
  destruct (parseCronItems env _) as [e1|items]; [by intros [= _ <-]|].
  destruct (graphileRun env _) as [e2|[h|]]; by intros [= _ <-].
Qed.

Lemma engine_starts_app (tr1 tr2 : list Event) :
  engine_starts (tr1 ++ tr2) = (engine_starts tr1 + engine_starts tr2)%nat.
Proof. unfold engine_starts. by rewrite List.filter_app, length_app. Qed.

(** C4.  A second [initialize] right after a successful one returns
    [true] again and changes nothing, neither the handle nor the trace;
    the first call started the engine once if the worker had no handle
    and not at all if it had one, in which case it changed nothing
    either.  So two calls in a row start the engine exactly once. *)
Theorem initialize_idempotent (s s1 : State) :
  initialize env this s = (Return true, s1) →
  initialize env this s1 = (Return true, s1)
  ∧ engine_starts (trace s1)
    = (engine_starts (trace s) + match runner s with Some _ => 0 | None => 1 end)%nat
  ∧ match runner s with
    | Some _ => s1 = s
    | None => is_Some (runner s1)
    end.
Proof.
  unfold initialize, bind, get_runner, log, call, lift, set_runner, throw, ret.
  destruct (runner s) as [h|] eqn:Hr.
  - intros [= <-]. rewrite Hr. split; [done|]. split; [lia|done].
  - cbn [trace runner].
    destruct (parseCronItems env _) as [e1|items]; [done|].
    destruct (graphileRun env _) as [e2|[h|]]; [done| |done].
    intros [= <-]. cbn [trace runner]. split; [done|]. split; [|by eexists].
    rewrite !engine_starts_app. unfold engine_starts. simpl. lia.
Qed.

Lemma initialize_started (s : State) (h : Runner) :
  runner s = Some h → initialize env this s = (Return true, s).
Proof. intros Hr. unfold initialize, bind, get_runner, ret. by rewrite Hr. Qed.

(** A successful [initialize] of a worker without a handle logs, then
    starts the engine with the runner options, the task list and the
    parsed cron items. *)
Lemma initialize_starts_engine (s s1 : State) :
  runner s = None →
  initialize env this s = (Return true, s1) →
  ∃ parsedCronItems,
    parseCronItems env (createCronItemsFromRecurringTasks this) = Return parsedCronItems
    ∧ trace s1
      = (trace s
         ++ [Log debug "Initializing worker queue with options"
               [("runnerOptions", LVal (runnerOptions this))];
             GraphileRun (runnerOptions this) (createTaskListFromTasks this)
               parsedCronItems])%list.
Proof.
  intros Hr. unfold initialize, bind, get_runner, log, call, lift, set_runner, throw, ret.
  rewrite Hr. cbn [trace runner].
  destruct (parseCronItems env _) as [e1|items]; [done|].
  destruct (graphileRun env _) as [e2|[h|]]; [done| |done].
  intros [= <-]. exists items. split; [done|]. cbn [trace]. by rewrite <- List.app_assoc.
Qed.

(** C9.  When a name is declared both in [tasks] and in [recurringTasks],
    the task list binds it to the recurring entry: the second loop writes
    over the entry of the first and nothing fails.  That list is the one
    [initialize] starts the engine with, and running its entry for the
    name is [#handleRecurringTask]. *)
Theorem recurring_task_shadows_task (k : string) (recurring : gmap string ZodRecurringTask) :
  recurringTasks this = Some recurring →
  is_Some (tasks this !! k) →
  is_Some (recurring !! k) →
  createTaskListFromTasks this !! k = Some (RecurringTask k)
  ∧ (∀ s s1,
        runner s = None →
        initialize env this s = (Return true, s1) →
        ∃ parsedCronItems,
          last (trace s1)
          = Some (GraphileRun (runnerOptions this) (createTaskListFromTasks this)
                    parsedCronItems))
  ∧ ∀ payload helpers,
      run_task rt this (RecurringTask k) payload helpers
      = handleRecurringTask rt this k payload helpers.
Proof.
  intros Hrec [t Ht] [r Hr]. split; [|split; [|done]].
  - rewrite lookup_createTaskListFromTasks, Hrec. simpl. by rewrite Hr.
  - intros s s1 Hs Hinit.
    destruct (initialize_starts_engine s s1 Hs Hinit) as (items & _ & ->).
    exists items. by rewrite last_app.
Qed.

(** C3, as the code has it.  Without a handle [stop] does nothing.  With
    a handle it asks the runner to stop and answers what the runner
    answers, and the handle stays in [#runner]: the worker still counts as
    initialized, so a later [initialize] returns [true] without starting
    the engine, and [enqueue] and [dequeue] go on to issue their
    queries. *)
Theorem stop_keeps_runner (s : State) :
  match runner s with
  | None => stop env s = (Return tt, s)
  | Some h =>
      let s' := after s [RunnerStop h] in
      stop env s = (runner_stop env (trace s'), s')
      ∧ runner s' = Some h
      ∧ initialize env this s' = (Return true, s')
      ∧ (∀ identifier task payload opts,
            tasks this !! identifier = Some task →
            ∃ rest,
              trace (enqueue rt env this identifier payload opts s').2
              = (trace s'
                 ++ QueryRawUnsafe (default (prisma this) (opts ≫= enqueue_tx)) add_job_sql
                      (add_job_values rt identifier payload
                         (enqueue_task_spec (default empty_spec (enqueue_spec <$> opts))
                            task payload))
                    :: rest)%list)
      ∧ (∀ jobKey opts,
            ∃ rest,
              trace (dequeue rt env this jobKey opts s').2
              = (trace s'
                 ++ QueryRawUnsafe (default (prisma this) (opts ≫= dequeue_tx))
                      remove_job_sql [VStr jobKey] :: rest)%list)
  end.
Proof.
  destruct s as [[h|] tr]; cbn [runner]; [|done].
  cbv zeta. split; [done|]. split; [done|]. split; [done|]. split.
  - intros. by eapply enqueue_issues_add_job.
  - intros. by eapply dequeue_issues_remove_job.
Qed.

(** *** The add-job operation *)

(** What each named argument of [add_job] receives from [#addJob]. *)
Lemma add_job_bindings (identifier : string) (payload : value) (spec : TaskSpec) :
  let bound := bound_argument add_job_sql (add_job_values rt identifier payload spec) in
  bound "identifier" = Some (VStr identifier)
  ∧ bound "payload" = Some (JSON_stringify rt payload)
  ∧ bound "queue_name" = Some (js_or (of_string (queueName spec)) VNull)
  ∧ bound "run_at" = Some (js_or (of_date (runAt spec)) VNull)
  ∧ bound "max_attempts" = Some (js_or (of_number (maxAttempts spec)) VNull)
  ∧ bound "job_key" = Some (js_or (of_string (jobKey spec)) VNull)
  ∧ bound "priority" = Some (js_or (of_number (priority spec)) VNull)
  ∧ bound "flags" = Some (js_or (of_jobKeyMode (jobKeyMode spec)) VNull)
  ∧ bound "job_key_mode" = Some (js_or (of_flags (flags spec)) VNull).
Proof. repeat split. Qed.

Lemma js_or_falsy (v : value) : truthy v = false → js_or v VNull = VNull.
Proof. unfold js_or. by intros ->. Qed.

(** C10.  On a started worker, [enqueue] of a declared task issues the
    add-job query, and every field of the resolved [spec] that is falsy
    is passed as [null]: in particular a priority of 0, a max-attempts of
    0, an empty queue name and an empty job key. *)
Theorem falsy_spec_fields_sent_as_null (s : State) (h : Runner) (identifier : string)
  (task : ZodTask) (payload : value) (opts : option ZodWorkerEnqueueOptions) :
  runner s = Some h →
  tasks this !! identifier = Some task →
  let spec := enqueue_task_spec (default empty_spec (enqueue_spec <$> opts)) task payload in
  ∃ values rest,
    trace (enqueue rt env this identifier payload opts s).2
    = (trace s
       ++ QueryRawUnsafe (default (prisma this) (opts ≫= enqueue_tx)) add_job_sql values
          :: rest)%list
    ∧ (truthy (of_string (queueName spec)) = false →
       bound_argument add_job_sql values "queue_name" = Some VNull)
    ∧ (truthy (of_date (runAt spec)) = false →
       bound_argument add_job_sql values "run_at" = Some VNull)
    ∧ (truthy (of_number (maxAttempts spec)) = false →
       bound_argument add_job_sql values "max_attempts" = Some VNull)
    ∧ (truthy (of_string (jobKey spec)) = false →
       bound_argument add_job_sql values "job_key" = Some VNull)
    ∧ (truthy (of_number (priority spec)) = false →
       bound_argument add_job_sql values "priority" = Some VNull)
    ∧ (truthy (of_jobKeyMode (jobKeyMode spec)) = false → values !! 7%nat = Some VNull)
    ∧ (truthy (of_flags (flags spec)) = false → values !! 8%nat = Some VNull)
    ∧ (priority spec = Some 0 →
       bound_argument add_job_sql values "priority" = Some VNull)
    ∧ (maxAttempts spec = Some 0 →
       bound_argument add_job_sql values "max_attempts" = Some VNull)
    ∧ (queueName spec = Some "" →
       bound_argument add_job_sql values "queue_name" = Some VNull)
    ∧ (jobKey spec = Some "" →
       bound_argument add_job_sql values "job_key" = Some VNull).
Proof.
  intros Hr Ht spec.
  destruct (enqueue_issues_add_job s h identifier task payload opts Hr Ht) as [rest Htrace].
  fold spec in Htrace.
  exists (add_job_values rt identifier payload spec), rest.
  split; [exact Htrace|].
  destruct (add_job_bindings identifier payload spec)
    as (_ & _ & Hq & Hrun & Hmax & Hkey & Hprio & _ & _).
  cbv zeta in *. rewrite Hq, Hrun, Hmax, Hkey, Hprio.
  repeat split; intros Hf; try (by rewrite js_or_falsy);
    try (by unfold add_job_values; cbn [lookup list_lookup]; rewrite js_or_falsy);
    by rewrite Hf.
Qed.

(** C6, as the code has it.  When the task's [queueName] is a function
    [f], the add-job query of [enqueue] binds [queue_name] to [f payload]
    if that string is not empty and to [null] if it is; a [queueName] in
    the caller's options plays no part. *)
Theorem queue_name_function_resolved (s : State) (h : Runner) (identifier : string)
  (task : ZodTask) (f : value → string) (payload : value)
  (opts : option ZodWorkerEnqueueOptions) :
  runner s = Some h →
  tasks this !! identifier = Some task →
  task_queueName task = Some (QueueFn f) →
  ∃ values rest,
    trace (enqueue rt env this identifier payload opts s).2
    = (trace s
       ++ QueryRawUnsafe (default (prisma this) (opts ≫= enqueue_tx)) add_job_sql values
          :: rest)%list
    ∧ bound_argument add_job_sql values "queue_name"
      = Some (if String.eqb (f payload) "" then VNull else VStr (f payload)).
Proof.
  intros Hr Ht Hq.
  destruct (enqueue_issues_add_job s h identifier task payload opts Hr Ht) as [rest Htrace].
  eexists _, rest. split; [exact Htrace|].
  destruct (add_job_bindings identifier payload
              (enqueue_task_spec (default empty_spec (enqueue_spec <$> opts)) task payload))
    as (_ & _ & -> & _).
  unfold enqueue_task_spec. cbn [queueName]. rewrite Hq. cbn [of_string].
  by destruct (f payload).
Qed.

(** *** The remove-job operation *)

(** C8.  On a started worker [dequeue] issues the remove-job query.  If
    the query throws, [dequeue] throws "Failed to remove job from queue, "
    followed by the cause as a string; if the result does not parse as a
    list of job rows, it throws the same wrapping of the parse error; it
    returns only when the query returned and its result parsed, and then
    it returns the first row. *)
Theorem removeJob_failure_wrapped (s : State) (h : Runner) (jobKey : string)
  (opts : option ZodWorkerDequeueOptions) :
  runner s = Some h →
  let query :=
    QueryRawUnsafe (default (prisma this) (opts ≫= dequeue_tx)) remove_job_sql
      [VStr jobKey] in
  let answer := queryRawUnsafe env (trace s ++ [query])%list in
  let result := (dequeue rt env this jobKey opts s).1 in
  (∀ cause,
      answer = Throw cause →
      result
      = Throw (Error ("Failed to remove job from queue, " ++ Error_toString cause ++ "}")))
  ∧ (∀ rows zerr,
      answer = Return rows →
      safeParse rt AddJobResultsSchema rows = inl zerr →
      result
      = Throw (Error ("Failed to remove job from queue, "
                      ++ Error_toString
                           (Error ("Failed to remove job from queue, zod parsing error: "
                                   ++ template rt (JSON_stringify rt (ZodError_value zerr))))
                      ++ "}")))
  ∧ (∀ removed,
      result = Return removed →
      ∃ rows parsed,
        answer = Return rows
        ∧ safeParse rt AddJobResultsSchema rows = inr parsed
        ∧ removed = first parsed).
Proof.
  intros Hr query answer result. subst result.
  rewrite (dequeue_started s h jobKey opts Hr). fold query. fold answer.
  destruct answer as [e|rows].
  - split; [by intros cause [= <-]|]. split; [done|]. done.
  - split; [done|].
    destruct (safeParse rt AddJobResultsSchema rows) as [zerr|parsed] eqn:Hparse.
    + split; [|done]. intros rows' zerr' [= <-]. rewrite Hparse. by intros [= <-].
    + split; [|intros removed [= <-]; by exists rows, parsed].
      intros rows' zerr' [= <-]. by rewrite Hparse.
Qed.

(** *** Recurring tasks *)

Lemma safeParse_cron_envelope (rawPayload : value) :
  match cron_envelope rt rawPayload with
  | Some (ms, b) =>
      safeParse rt RawCronPayloadSchema rawPayload
      = inr (VObj [("_cron", RecurringTaskPayload ms b)])
  | None =>
      ∃ zerr, zerr ≠ [] ∧ safeParse rt RawCronPayloadSchema rawPayload = inl zerr
  end.
Proof.
  unfold cron_envelope, safeParse, RawCronPayloadSchema.
  destruct rawPayload as [| |?|?|?|?|?|ps]; try parse_fails.
  cbn [parse_at]. destruct (get_prop "_cron" ps) as [| |?|?|?|?|?|cs];
    try (destruct (bool_decide _); parse_fails).
  cbn [parse_at].
  destruct (js_Date rt (get_prop "ts" cs)) as [ms|];
    destruct (get_prop "backfilled" cs) as [| |b|?|?|?|?|?];
    try (destruct (bool_decide _), (bool_decide _), (bool_decide _); parse_fails).
  by destruct (bool_decide _), (bool_decide _), (bool_decide _).
Qed.

(** C2, as the code has it.  A firing of a declared recurring task whose
    raw payload has the envelope shape calls the handler of that task,
    once, with the object [{ts, backfilled}] taken from under [_cron]
    ([ts] as a date) and with the job of the helpers.  The call is the
    only event after the debug entry when the handler returns; when it
    throws, the error is logged and thrown again. *)
Theorem recurring_handler_called (s : State) (typeName : string)
  (recurring : gmap string ZodRecurringTask) (task : ZodRecurringTask)
  (rawPayload : value) (helpers : JobHelpers) (ms : Z) (b : bool) :
  recurringTasks this = Some recurring →
  recurring !! typeName = Some task →
  cron_envelope rt rawPayload = Some (ms, b) →
  let invoked :=
    HandlerCall (RecurringTask typeName) (RecurringTaskPayload ms b) (job helpers) in
  handleRecurringTask rt this typeName rawPayload helpers s
  = match recurring_handler task (RecurringTaskPayload ms b) (job helpers) with
    | Return u => (Return u, after s [received typeName rawPayload helpers; invoked])
    | Throw e =>
        (Throw e,
         after s [received typeName rawPayload helpers; invoked;
                  Log error "Failed to handle recurring task"
                    [("error", LErr e);
                     ("payload", LVal (VObj [("_cron", RecurringTaskPayload ms b)]))]])
    end.
Proof.
  intros Hrec Ht Henv invoked.
  pose proof (safeParse_cron_envelope rawPayload) as Hparse. rewrite Henv in Hparse.
  unfold handleRecurringTask, try_catch, bind, log, call, throw, ret, after, received.
  rewrite Hrec. cbn [mbind option_bind]. rewrite Ht, Hparse.
  cbn [trace runner prop get_prop assoc String.eqb Ascii.eqb Bool.eqb].
  fold (RecurringTaskPayload ms b). fold invoked.
  destruct (recurring_handler task (RecurringTaskPayload ms b) (job helpers)) as [e|[]];
    cbn [trace runner]; by rewrite <- !List.app_assoc.
Qed.

(** C7, as the code has it.  A firing of a declared recurring task whose
    raw payload does not have the envelope shape throws "Failed to parse
    recurring task payload: " followed by the serialised zod error.  The
    handler is not called and nothing is logged besides the debug entry
    written on receipt, before the payload is parsed. *)
Theorem malformed_cron_payload_rejected (s : State) (typeName : string)
  (recurring : gmap string ZodRecurringTask) (task : ZodRecurringTask)
  (rawPayload : value) (helpers : JobHelpers) :
  recurringTasks this = Some recurring →
  recurring !! typeName = Some task →
  cron_envelope rt rawPayload = None →
  ∃ zerr,
    zerr ≠ []
    ∧ safeParse rt RawCronPayloadSchema rawPayload = inl zerr
    ∧ handleRecurringTask rt this typeName rawPayload helpers s
      = (Throw (Error ("Failed to parse recurring task payload: "
                       ++ template rt (JSON_stringify rt (ZodError_value zerr)))),
         after s [received typeName rawPayload helpers]).
Proof.
  intros Hrec Ht Henv.
  pose proof (safeParse_cron_envelope rawPayload) as Hparse. rewrite Henv in Hparse.
  destruct Hparse as (zerr & Hne & Hparse). exists zerr. split; [done|]. split; [done|].
  unfold handleRecurringTask, bind, log, call, throw, after, received.
  rewrite Hrec. cbn [mbind option_bind]. by rewrite Ht, Hparse.
Qed.
End Properties.

(** ** The model at work on the concrete worker *)

Lemma recurring_task_shadows_task_witness :
  is_Some (tasks Demo.worker !! "cleanup")
  ∧ createTaskListFromTasks Demo.worker !! "cleanup" = Some (RecurringTask "cleanup").
Proof.
  assert (H1 : is_Some (tasks Demo.worker !! "cleanup")) by (eexists; vm_compute; reflexivity).
  assert (H2 : is_Some (({["cleanup" := Demo.cleanup]} : gmap string ZodRecurringTask)
                          !! "cleanup")) by (eexists; vm_compute; reflexivity).
  split; [exact H1|].
  exact (proj1 (recurring_task_shadows_task Demo.rt Demo.env Demo.worker "cleanup" _
                  eq_refl H1 H2)).
Defined.

Lemma gateway_requires_initialize_witness :
  runner constructed = None
  ∧ enqueue Demo.rt Demo.env Demo.worker "email" Demo.welcome None constructed
    = (Throw (Error "Worker not initialized"), constructed)
  ∧ dequeue Demo.rt Demo.env Demo.worker "job-1" None constructed
    = (Throw (Error "Worker not initialized"), constructed).
Proof.
  pose proof (gateway_requires_initialize Demo.rt Demo.env Demo.worker constructed eq_refl)
    as [He Hd].
  split; [reflexivity|]. split; [apply He | apply Hd].
Defined.

Lemma initialize_idempotent_witness :
  let s1 := (initialize Demo.env Demo.worker constructed).2 in
  initialize Demo.env Demo.worker constructed = (Return true, s1)
  ∧ initialize Demo.env Demo.worker s1 = (Return true, s1)
  ∧ engine_starts (trace s1) = 1%nat.
Proof.
  intros s1.
  assert (H : initialize Demo.env Demo.worker constructed = (Return true, s1))
    by (vm_compute; reflexivity).
  destruct (initialize_idempotent Demo.env Demo.worker constructed s1 H) as (H2 & Hn & _).
  split; [exact H|]. split; [exact H2 | exact Hn].
Defined.

(** C3, as the spec words it, fails: after [initialize] and [stop] the
    handle is still in [#runner]; a further [initialize] returns [true]
    and the engine has been started once in all; [enqueue] and [dequeue]
    do not throw "Worker not initialized", they run their queries. *)
Lemma stop_does_not_clear_runner :
  let s1 := (initialize Demo.env Demo.worker constructed).2 in
  let s2 := (stop Demo.env s1).2 in
  let s3 := (initialize Demo.env Demo.worker s2).2 in
  runner s1 = Some 7%nat
  ∧ (stop Demo.env s1).1 = Return tt
  ∧ runner s2 = Some 7%nat
  ∧ (initialize Demo.env Demo.worker s2).1 = Return true
  ∧ engine_starts (trace s3) = 1%nat
  ∧ (enqueue Demo.rt Demo.env Demo.worker "email" Demo.welcome None s2).1 = Return VUndefined
  ∧ (dequeue Demo.rt Demo.env Demo.worker "job-1" None s2).1 = Return VUndefined.
Proof. vm_compute. repeat split. Qed.

(** C1 fails on the code: [#addJob] passes [spec.jobKeyMode] before
    [spec.flags], but the SQL text binds [flags] to [$8] and [job_key_mode]
    to [$9].  For a task with flags [["urgent"]] and job-key mode
    [replace], the engine receives "replace" as [flags] and the flag list
    as [job_key_mode]. *)
Lemma addJob_swaps_flags_and_job_key_mode :
  ∃ values rest,
    trace (enqueue Demo.rt Demo.env Demo.worker "email" Demo.welcome None Demo.started).2
    = QueryRawUnsafe 0%nat add_job_sql values :: rest
    ∧ task_flags Demo.email = Some ["urgent"]
    ∧ task_jobKeyMode Demo.email = Some replace
    ∧ bound_argument add_job_sql values "flags" = Some (VStr "replace")
    ∧ bound_argument add_job_sql values "job_key_mode" = Some (VArr [VStr "urgent"]).
Proof. vm_compute. eexists _, _. repeat split. Qed.

Lemma falsy_spec_fields_sent_as_null_witness :
  task_priority Demo.email = Some 0
  ∧ ∃ values rest,
      trace (enqueue Demo.rt Demo.env Demo.worker "email" Demo.welcome None Demo.started).2
      = QueryRawUnsafe 0%nat add_job_sql values :: rest
      ∧ bound_argument add_job_sql values "priority" = Some VNull.
Proof.
  split; [reflexivity|].
  destruct (falsy_spec_fields_sent_as_null Demo.rt Demo.env Demo.worker Demo.started 7%nat
              "email" Demo.email Demo.welcome None eq_refl eq_refl)
    as (values & rest & Htrace & _ & _ & _ & _ & _ & _ & _ & Hpriority & _).
  exists values, rest. split; [exact Htrace | exact (Hpriority eq_refl)].
Defined.

(** C6, as the spec words it, fails: a queue-name function that returns
    the empty string does not make the empty string the queue name of the
    add-job query; [queue_name] is bound to [null]. *)
Lemma empty_queue_name_sent_as_null :
  ∃ f values rest,
    task_queueName Demo.unqueued = Some (QueueFn f)
    ∧ trace (enqueue Demo.rt Demo.env Demo.worker "unqueued" Demo.welcome None Demo.started).2
      = QueryRawUnsafe 0%nat add_job_sql values :: rest
    ∧ bound_argument add_job_sql values "queue_name" = Some VNull
    ∧ bound_argument add_job_sql values "queue_name" ≠ Some (VStr (f Demo.welcome)).
Proof. vm_compute. eexists _, _, _. repeat split. discriminate. Qed.

Lemma queue_name_function_resolved_witness :
  ∃ values rest,
    trace (enqueue Demo.rt Demo.env Demo.worker "email" Demo.welcome
             (Some {| enqueue_spec :=
                        {| queueName := Some "bulk"; runAt := None; maxAttempts := None;
                           jobKey := None; priority := None; flags := None;
                           jobKeyMode := None |};
                      enqueue_tx := Some 3%nat |}) Demo.started).2
    = QueryRawUnsafe 3%nat add_job_sql values :: rest
    ∧ bound_argument add_job_sql values "queue_name" = Some (VStr "a@b.c").
Proof.
  exact (queue_name_function_resolved Demo.rt Demo.env Demo.worker Demo.started 7%nat
           "email" Demo.email _ Demo.welcome _ eq_refl eq_refl eq_refl).
Defined.

Lemma removeJob_failure_wrapped_witness :
  runner Demo.started = Some 7%nat
  ∧ (dequeue Demo.rt Demo.failing_env Demo.worker "job-1" None Demo.started).1
    = Throw (Error "Failed to remove job from queue, Error: connection closed}").
Proof.
  split; [reflexivity|].
  exact (proj1 (removeJob_failure_wrapped Demo.rt Demo.failing_env Demo.worker Demo.started
                  7%nat "job-1" None eq_refl) (Error "connection closed") eq_refl).
Defined.

(** C2, as the spec words it, fails: the object the handler receives has
    the time under [ts], as the envelope had it, and no [firedAt]. *)
Lemma recurring_payload_has_no_firedAt :
  ∃ entry payload,
    trace (handleRecurringTask Demo.rt Demo.worker "cleanup" Demo.fired Demo.helpers
             Demo.started).2
    = [entry; HandlerCall (RecurringTask "cleanup") payload (job Demo.helpers)]
    ∧ payload = VObj [("ts", VDate 1704067200000); ("backfilled", VBool false)]
    ∧ prop payload "firedAt" = VUndefined
    ∧ payload ≠ VObj [("firedAt", VDate 1704067200000); ("backfilled", VBool false)].
Proof. vm_compute. eexists _, _. repeat split. discriminate. Qed.

Lemma recurring_handler_called_witness :
  cron_envelope Demo.rt Demo.fired = Some (1704067200000, false)
  ∧ handleRecurringTask Demo.rt Demo.worker "cleanup" Demo.fired Demo.helpers Demo.started
    = (Return tt,
       after Demo.started
         [received "cleanup" Demo.fired Demo.helpers;
          HandlerCall (RecurringTask "cleanup")
            (RecurringTaskPayload 1704067200000 false) (job Demo.helpers)]).
Proof.
  split; [reflexivity|].
  exact (recurring_handler_called Demo.rt Demo.worker Demo.started "cleanup" _ Demo.cleanup
           Demo.fired Demo.helpers 1704067200000 false eq_refl eq_refl eq_refl).
Defined.

(** C7, as the spec words it, fails: when the envelope does not parse, the
    trace holds the debug entry written on receipt and nothing else; no
    entry logs the failure. *)
Lemma parse_failure_is_not_logged :
  (∃ e, (handleRecurringTask Demo.rt Demo.worker "cleanup" Demo.malformed Demo.helpers
           Demo.started).1 = Throw e)
  ∧ trace (handleRecurringTask Demo.rt Demo.worker "cleanup" Demo.malformed Demo.helpers
             Demo.started).2
    = [received "cleanup" Demo.malformed Demo.helpers]
  ∧ existsb is_error_log
      (trace (handleRecurringTask Demo.rt Demo.worker "cleanup" Demo.malformed Demo.helpers
                Demo.started).2) = false.
Proof. vm_compute. split; [by eexists|]. by split. Qed.

Lemma malformed_cron_payload_rejected_witness :
  cron_envelope Demo.rt Demo.malformed = None
  ∧ ∃ zerr,
      handleRecurringTask Demo.rt Demo.worker "cleanup" Demo.malformed Demo.helpers
        Demo.started
      = (Throw (Error ("Failed to parse recurring task payload: "
                       ++ template Demo.rt (JSON_stringify Demo.rt (ZodError_value zerr)))),
         after Demo.started [received "cleanup" Demo.malformed Demo.helpers]).
Proof.
  split; [reflexivity|].
  destruct (malformed_cron_payload_rejected Demo.rt Demo.worker Demo.started "cleanup" _
              Demo.cleanup Demo.malformed Demo.helpers eq_refl eq_refl eq_refl)
    as (zerr & _ & _ & H).
  exists zerr. exact H.
Defined.

Lemma stop_keeps_runner_witness :
  stop Demo.env Demo.started = (Return tt, after Demo.started [RunnerStop 7%nat])
  ∧ initialize Demo.env Demo.worker (after Demo.started [RunnerStop 7%nat])
    = (Return true, after Demo.started [RunnerStop 7%nat]).
Proof.
  destruct (stop_keeps_runner Demo.rt Demo.env Demo.worker Demo.started)
    as (Hstop & _ & Hinit & _).
  split; [exact Hstop | exact Hinit].
Defined.

(** ** Further properties of the worker *)

Section Dispatch.
Variable rt : Runtime.
Variable env : Collaborators.
Variable this : ZodWorkerOptions.

(** *** Messages *)

(** [#handleMessage], case by case. *)
Lemma handleMessage_cases (s : State) (typeName : string) (rawPayload : value)
  (helpers : JobHelpers) :
  handleMessage rt this typeName rawPayload helpers s
  = match schema this !! typeName with
    | None => (Throw (Error ("Unknown message type: " ++ typeName)), s)
    | Some messageSchema =>
        match messageSchema rawPayload with
        | inl zerr => (Throw (ZodError_thrown rt zerr), s)
        | inr payload =>
            match tasks this !! typeName with
            | None =>
                (Throw (Error ("No task for message type: " ++ typeName)),
                 after s [received_message typeName payload helpers])
            | Some task =>
                (task_handler task payload (job helpers),
                 after s [received_message typeName payload helpers;
                          HandlerCall (MessageTask typeName) payload (job helpers)])
            end
        end
    end.
Proof.
  unfold handleMessage, bind, log, call, throw, after, received_message.
  destruct (schema this !! typeName) as [messageSchema|]; [|done].
  destruct (messageSchema rawPayload) as [zerr|payload]; [done|].
  destruct (tasks this !! typeName) as [task|]; cbn [trace runner]; [|done].
  by rewrite <- List.app_assoc.
Qed.

(** X1.  A task that no recurring task shadows is dispatched through the
    task list to [#handleMessage]: the payload is parsed with the schema of
    the catalog and the task's handler is called once, with the parsed
    payload and the job of the helpers.  What the handler answers is the
    answer of the entry: an error it throws is thrown on as it is, and
    nothing is logged after the call. *)
Theorem dispatch_message (s : State) (typeName : string) (task : ZodTask)
  (messageSchema : MessageSchema) (rawPayload payload : value) (helpers : JobHelpers) :
  tasks this !! typeName = Some task →
  default ∅ (recurringTasks this) !! typeName = None →
  schema this !! typeName = Some messageSchema →
  messageSchema rawPayload = inr payload →
  createTaskListFromTasks this !! typeName = Some (MessageTask typeName)
  ∧ run_task rt this (MessageTask typeName) rawPayload helpers s
    = (task_handler task payload (job helpers),
       after s [received_message typeName payload helpers;
                HandlerCall (MessageTask typeName) payload (job helpers)]).
Proof.
  intros Ht Hr Hs Hp. split.
  - by rewrite lookup_createTaskListFromTasks, Hr, Ht.
  - cbn [run_task]. rewrite handleMessage_cases. unfold MessageSchema in *.
    by rewrite Hs, Hp, Ht.
Qed.

(** X2.  [#handleMessage] never hands a handler a payload that was not
    validated: whatever the name and the raw payload, it calls a handler at
    most once, and a call it makes is for the task of that name, with the
    job of the helpers and with a payload that the schema of the catalog
    returned for the raw payload. *)
Theorem message_handler_needs_validation (s : State) (typeName : string)
  (rawPayload : value) (helpers : JobHelpers) :
  ∃ events,
    trace (handleMessage rt this typeName rawPayload helpers s).2
    = (trace s ++ events)%list
    ∧ (length (List.filter is_HandlerCall events) ≤ 1)%nat
    ∧ ∀ t payload j,
        HandlerCall t payload j ∈ events →
        t = MessageTask typeName
        ∧ j = job helpers
        ∧ ∃ messageSchema,
            schema this !! typeName = Some messageSchema
            ∧ messageSchema rawPayload = inr payload.
Proof.
  rewrite handleMessage_cases.
  destruct (schema this !! typeName) as [messageSchema|] eqn:Hs.
  2:{ exists []. rewrite app_nil_r. split; [done|]. split; [simpl; lia|].
      intros ? ? ? Hin. by apply elem_of_nil in Hin. }
  destruct (messageSchema rawPayload) as [zerr|payload] eqn:Hp.
  { exists []. rewrite app_nil_r. split; [done|]. split; [simpl; lia|].
    intros ? ? ? Hin. by apply elem_of_nil in Hin. }
  destruct (tasks this !! typeName) as [task|]; eexists; (split; [reflexivity|]);
    (split; [simpl; lia|]); intros t p j Hin;
    repeat (apply elem_of_cons in Hin as [Hin|Hin]; [try discriminate|]);
    try (by apply elem_of_nil in Hin).
  injection Hin as -> -> ->. split; [done|]. split; [done|]. by exists messageSchema.
Qed.


(** X4.  The task list has an entry for exactly the names declared in
    [tasks] or in [recurringTasks]; a name declared only in [tasks] is
    bound to the message entry. *)
Theorem task_list_names (k : string) :
  (createTaskListFromTasks this !! k = None
   ↔ tasks this !! k = None ∧ default ∅ (recurringTasks this) !! k = None)
  ∧ (createTaskListFromTasks this !! k = Some (MessageTask k)
     ↔ is_Some (tasks this !! k) ∧ default ∅ (recurringTasks this) !! k = None)
  ∧ dom (createTaskListFromTasks this)
    = dom (tasks this) ∪ dom (default ∅ (recurringTasks this)).
Proof.
  split; [|split].
  - rewrite lookup_createTaskListFromTasks.
    destruct (default ∅ (recurringTasks this) !! k), (tasks this !! k);
      split; try done; by intros [? ?].
  - rewrite lookup_createTaskListFromTasks.
    destruct (default ∅ (recurringTasks this) !! k), (tasks this !! k);
      (split; [intros ?|intros [Hsome ?]]); try done;
      try (by split; [eexists|]); by destruct Hsome.
  - apply set_eq. intros x. rewrite elem_of_union, !elem_of_dom.
    rewrite lookup_createTaskListFromTasks.
    destruct (default ∅ (recurringTasks this) !! x), (tasks this !! x);
      (split; [intros Hsome|intros [Hsome|Hsome]]);
      try (by destruct Hsome); try (by eexists);
      try (by left; eexists); by right; eexists.
Qed.

(** *** Recurring tasks *)

(** [#handleRecurringTask], case by case. *)
Lemma handleRecurringTask_cases (s : State) (typeName : string) (rawPayload : value)
  (helpers : JobHelpers) :
  handleRecurringTask rt this typeName rawPayload helpers s
  = match default ∅ (recurringTasks this) !! typeName with
    | None =>
        (Throw (Error ("No recurring task for message type: " ++ typeName)),
         after s [received typeName rawPayload helpers])
    | Some task =>
        match safeParse rt RawCronPayloadSchema rawPayload with
        | inl zerr =>
            (Throw (Error ("Failed to parse recurring task payload: "
                           ++ template rt (JSON_stringify rt (ZodError_value zerr)))),
             after s [received typeName rawPayload helpers])
        | inr payload =>
            let invoked :=
              HandlerCall (RecurringTask typeName) (prop payload "_cron") (job helpers) in
            match recurring_handler task (prop payload "_cron") (job helpers) with
            | Return u => (Return u, after s [received typeName rawPayload helpers; invoked])
            | Throw e =>
                (Throw e,
                 after s [received typeName rawPayload helpers; invoked;
                          Log error "Failed to handle recurring task"
                            [("error", LErr e); ("payload", LVal payload)]])
            end
        end
    end.
Proof.
  unfold handleRecurringTask, try_catch, bind, log, call, throw, ret, after, received.
  assert (Hlookup : recurringTasks this ≫= (λ recurring, recurring !! typeName)
                    = default ∅ (recurringTasks this) !! typeName).
  { destruct (recurringTasks this); [done|]. cbn. by rewrite lookup_empty. }
  rewrite Hlookup.
  destruct (default ∅ (recurringTasks this) !! typeName) as [task|]; [|done].
  destruct (safeParse rt RawCronPayloadSchema rawPayload) as [zerr|payload]; [done|].
  cbv zeta. cbn [trace runner].
  destruct (recurring_handler task (prop payload "_cron") (job helpers)) as [e|[]];
    cbn [trace runner]; by rewrite <- !List.app_assoc.
Qed.

(** X5.  [#handleRecurringTask] never hands a handler anything but a
    validated cron payload: whatever the name and the raw payload, it calls
    a handler at most once, and a call it makes is for the recurring task
    of that name, which is declared, with the job of the helpers and with
    the object [{ts, backfilled}] read from an envelope of the right
    shape. *)
Theorem recurring_handler_needs_envelope (s : State) (typeName : string)
  (rawPayload : value) (helpers : JobHelpers) :
  ∃ events,
    trace (handleRecurringTask rt this typeName rawPayload helpers s).2
    = (trace s ++ events)%list
    ∧ (length (List.filter is_HandlerCall events) ≤ 1)%nat
    ∧ ∀ t payload j,
        HandlerCall t payload j ∈ events →
        t = RecurringTask typeName
        ∧ j = job helpers
        ∧ is_Some (default ∅ (recurringTasks this) !! typeName)
        ∧ ∃ ms b,
            cron_envelope rt rawPayload = Some (ms, b)
            ∧ payload = RecurringTaskPayload ms b.
Proof.
  rewrite handleRecurringTask_cases.
  destruct (default ∅ (recurringTasks this) !! typeName) as [task|] eqn:Hr.
  2:{ eexists. split; [reflexivity|]. split; [simpl; lia|]. intros t p j Hin.
      apply elem_of_cons in Hin as [Hin|Hin]; [discriminate|].
      by apply elem_of_nil in Hin. }
  pose proof (safeParse_cron_envelope rt rawPayload) as Hparse.
  destruct (cron_envelope rt rawPayload) as [[ms b]|].
  - rewrite Hparse. cbv zeta.
    destruct (recurring_handler task _ (job helpers)) as [e|u];
      (eexists; split; [reflexivity|]; split; [simpl; lia|]); intros t p j Hin;
      repeat (apply elem_of_cons in Hin as [Hin|Hin]; [try discriminate|]);
      try (by apply elem_of_nil in Hin);
      injection Hin as -> -> ->; (split; [done|]); (split; [done|]);
      (split; [by eexists|]); by exists ms, b.
  - destruct Hparse as (zerr & _ & ->).
    eexists. split; [reflexivity|]. split; [simpl; lia|]. intros t p j Hin.
    apply elem_of_cons in Hin as [Hin|Hin]; [discriminate|].
    by apply elem_of_nil in Hin.
Qed.

(** X6.  A task whose name is also the name of a recurring task is out of
    reach of the engine: the entry of the task list for the name, run with
    any payload, never calls the handler of the task. *)
Theorem shadowed_task_never_dispatched (s : State) (typeName : string)
  (rawPayload : value) (helpers : JobHelpers) :
  is_Some (tasks this !! typeName) →
  is_Some (default ∅ (recurringTasks this) !! typeName) →
  ∃ t events,
    createTaskListFromTasks this !! typeName = Some t
    ∧ trace (run_task rt this t rawPayload helpers s).2 = (trace s ++ events)%list
    ∧ ∀ payload j, HandlerCall (MessageTask typeName) payload j ∉ events.
Proof.
  intros _ [recurringTask Hr]. exists (RecurringTask typeName).
  cbn [run_task]. rewrite handleRecurringTask_cases, Hr.
  destruct (safeParse rt RawCronPayloadSchema rawPayload) as [zerr|parsed].
  - eexists. split; [by rewrite lookup_createTaskListFromTasks, Hr|].
    split; [reflexivity|]. intros payload j Hin.
    apply elem_of_cons in Hin as [Hin|Hin]; [discriminate|]. by apply elem_of_nil in Hin.
  - cbv zeta. destruct (recurring_handler recurringTask _ _) as [e|u];
      (eexists; split; [by rewrite lookup_createTaskListFromTasks, Hr|]);
      (split; [reflexivity|]); intros payload j Hin;
      repeat (apply elem_of_cons in Hin as [Hin|Hin]; [discriminate|]);
      by apply elem_of_nil in Hin.
Qed.
End Dispatch.

Section Lifecycle.
Variable rt : Runtime.
Variable env : Collaborators.
Variable this : ZodWorkerOptions.

(** *** Cron items *)

(** X7.  [#createCronItemsFromRecurringTasks] makes one cron item per
    recurring task and nothing else: an item is in the list exactly when it
    carries the pattern and the options of a declared recurring task, with
    the key of the task as its identifier and as its task name.  There are
    as many items as recurring tasks, none when [recurringTasks] is not
    given, and no two items share an identifier. *)
Theorem cron_items_of_recurring_tasks :
  (∀ item,
      item ∈ createCronItemsFromRecurringTasks this
      ↔ ∃ k task,
          default ∅ (recurringTasks this) !! k = Some task
          ∧ item = {| cron_pattern := pattern task; cron_identifier := k;
                      cron_task := k; cron_options := options task |})
  ∧ length (createCronItemsFromRecurringTasks this)
    = size (default ∅ (recurringTasks this))
  ∧ NoDup (cron_identifier <$> createCronItemsFromRecurringTasks this).
Proof.
  unfold createCronItemsFromRecurringTasks.
  destruct (recurringTasks this) as [recurring|]; cbn [default].
  - split; [|split].
    + intros item. change (map ?f ?l) with (f <$> l). rewrite list_elem_of_fmap. split.
      * intros [[k task] [-> Hin]]. exists k, task.
        split; [by apply elem_of_map_to_list|done].
      * intros (k & task & Hk & ->). exists (k, task).
        split; [done|by apply elem_of_map_to_list].
    + by rewrite length_map, length_map_to_list.
    + change (map ?f ?l) with (f <$> l). rewrite <- list_fmap_compose.
      apply (NoDup_fst_map_to_list recurring).
  - split; [|split].
    + intros item. split; [by intros ?%elem_of_nil|].
      intros (k & task & Hk & _). by rewrite lookup_empty in Hk.
    + by rewrite map_size_empty.
    + constructor.
Qed.

(** X8.  The cron items and the task list given to the engine agree: the
    task name of every cron item is bound in the task list to the recurring
    entry of that name, and the recurring task it stands for is declared,
    so a firing of a cron item reaches [#handleRecurringTask] and finds its
    task. *)
Theorem cron_items_are_dispatched (item : CronItem) :
  item ∈ createCronItemsFromRecurringTasks this →
  cron_task item = cron_identifier item
  ∧ createTaskListFromTasks this !! cron_task item
    = Some (RecurringTask (cron_task item))
  ∧ is_Some (default ∅ (recurringTasks this) !! cron_task item).
Proof.
  unfold createCronItemsFromRecurringTasks.
  destruct (recurringTasks this) as [recurring|] eqn:Hrec; [|by intros ?%elem_of_nil].
  change (map ?f ?l) with (f <$> l). rewrite list_elem_of_fmap.
  intros [[k task] [-> Hin]]. apply elem_of_map_to_list in Hin.
  simpl. split; [done|]. split; [|by eexists].
  rewrite lookup_createTaskListFromTasks, Hrec. simpl. by rewrite Hin.
Qed.

(** *** Starting *)

(** [initialize] on a worker without a handle, case by case. *)
Lemma initialize_cases (s : State) :
  runner s = None →
  initialize env this s
  = match parseCronItems env (createCronItemsFromRecurringTasks this) with
    | Throw e => (Throw e, after s [initializing this])
    | Return parsedCronItems =>
        let run :=
          GraphileRun (runnerOptions this) (createTaskListFromTasks this)
            parsedCronItems in
        match graphileRun env (trace s ++ [initializing this; run])%list with
        | Throw e => (Throw e, after s [initializing this; run])
        | Return None =>
            (Throw (Error "Failed to initialize worker queue"),
             after s [initializing this; run])
        | Return (Some h) =>
            (Return true,
             {| runner := Some h;
                trace := (trace s ++ [initializing this; run])%list |})
        end
    end.
Proof.
  intros Hr. destruct s as [r tr]. cbn [runner] in Hr. subst r.
  unfold initialize, bind, get_runner, log, call, lift, set_runner, throw, ret, after,
    initializing.
  cbn [trace runner].
  destruct (parseCronItems env _) as [e|items]; [done|].
  cbv zeta. rewrite <- !List.app_assoc. cbn [List.app].
  by destruct (graphileRun env _) as [e|[h|]].
Qed.

(** X9.  [initialize] never returns [false], and when it returns the
    worker has a handle.  It throws only on a worker without a handle, and
    then the worker is still without one. *)
Theorem initialize_outcomes (s : State) :
  match initialize env this s with
  | (Return b, s') => b = true ∧ is_Some (runner s')
  | (Throw e, s') => runner s = None ∧ runner s' = None
  end.
Proof.
  destruct (runner s) as [h|] eqn:Hr.
  - rewrite (initialize_started env this s h Hr). rewrite Hr. by split; [|eexists].
  - rewrite (initialize_cases s Hr).
    destruct (parseCronItems env _) as [e|items]; [done|]. cbv zeta.
    by destruct (graphileRun env _) as [e|[h|]].
Qed.

(** X10.  The three ways a start fails.  When [parseCronItems] rejects the
    cron items its error is thrown before the engine is called.  When the
    engine throws, its error is thrown.  When the engine answers without a
    handle, "Failed to initialize worker queue" is thrown.  A failed start
    is not remembered: the next [initialize] asks the engine again. *)
Theorem initialize_failures (s : State) :
  runner s = None →
  (∀ e,
      parseCronItems env (createCronItemsFromRecurringTasks this) = Throw e →
      initialize env this s = (Throw e, after s [initializing this]))
  ∧ (∀ parsedCronItems e,
        parseCronItems env (createCronItemsFromRecurringTasks this)
        = Return parsedCronItems →
        let run :=
          GraphileRun (runnerOptions this) (createTaskListFromTasks this)
            parsedCronItems in
        graphileRun env (trace s ++ [initializing this; run])%list = Throw e →
        initialize env this s = (Throw e, after s [initializing this; run]))
  ∧ (∀ parsedCronItems,
        parseCronItems env (createCronItemsFromRecurringTasks this)
        = Return parsedCronItems →
        let run :=
          GraphileRun (runnerOptions this) (createTaskListFromTasks this)
            parsedCronItems in
        graphileRun env (trace s ++ [initializing this; run])%list = Return None →
        initialize env this s
        = (Throw (Error "Failed to initialize worker queue"),
           after s [initializing this; run]))
  ∧ (∀ e s',
        initialize env this s = (Throw e, s') →
        engine_starts (trace (initialize env this s').2)
        = (engine_starts (trace s')
           + match parseCronItems env (createCronItemsFromRecurringTasks this) with
             | Throw _ => 0
             | Return _ => 1
             end)%nat).
Proof.
  intros Hr. split; [|split; [|split]].
  - intros e Hparse. by rewrite (initialize_cases s Hr), Hparse.
  - intros items e Hparse run Hrun. rewrite (initialize_cases s Hr), Hparse.
    cbv zeta. fold run. by rewrite Hrun.
  - intros items Hparse run Hrun. rewrite (initialize_cases s Hr), Hparse.
    cbv zeta. fold run. by rewrite Hrun.
  - intros e s' Hfail.
    assert (Hr' : runner s' = None) by exact (initialize_failed_unset env this s s' e Hr Hfail).
    rewrite (initialize_cases s' Hr').
    destruct (parseCronItems env _) as [e'|items].
    + cbn [snd after trace]. rewrite engine_starts_app. unfold engine_starts. simpl. lia.
    + cbv zeta. destruct (graphileRun env _) as [e'|[h|]];
        cbn [snd after trace]; rewrite engine_starts_app; unfold engine_starts; simpl; lia.
Qed.
End Lifecycle.

Section Gateway.
Variable rt : Runtime.
Variable env : Collaborators.
Variable this : ZodWorkerOptions.

(** *** The handle over sequences of calls *)

Lemma after_keeps_lifecycle (s : State) (events : list Event) :
  engine_starts events = 0%nat → keeps_lifecycle s (after s events).
Proof.
  intros H. split; [done|]. cbn [after trace]. rewrite engine_starts_app. lia.
Qed.

Lemma keeps_lifecycle_refl (s : State) : keeps_lifecycle s s.
Proof. by split. Qed.

(** Every call keeps the handle and starts no engine, except an
    [initialize] on a worker without a handle. *)
Lemma run_call_keeps_lifecycle (c : Call) (s : State) :
  (c = CallInitialize → is_Some (runner s)) →
  keeps_lifecycle s (run_call rt env this c s).
Proof.
  intros Hinit. destruct c as [| |identifier payload opts|jobKey opts|t payload helpers];
    cbn [run_call].
  - destruct (Hinit eq_refl) as [h Hr]. rewrite (initialize_started env this s h Hr).
    apply keeps_lifecycle_refl.
  - destruct s as [[h|] tr]; [|apply keeps_lifecycle_refl].
    by apply (after_keeps_lifecycle {| runner := Some h; trace := tr |} [RunnerStop h]).
  - destruct (runner s) as [h|] eqn:Hr.
    + destruct (tasks this !! identifier) as [task|] eqn:Ht.
      * rewrite (enqueue_started rt env this s h identifier task payload opts Hr Ht).
        cbv zeta. destruct (queryRawUnsafe env _) as [e|results];
          [by apply after_keeps_lifecycle|].
        destruct (safeParse rt AddJobResultsSchema results);
          by apply after_keeps_lifecycle.
      * unfold enqueue, bind, get_runner, throw. rewrite Hr, Ht.
        apply keeps_lifecycle_refl.
    + unfold enqueue, bind, get_runner, throw. rewrite Hr. apply keeps_lifecycle_refl.
  - destruct (runner s) as [h|] eqn:Hr.
    + rewrite (dequeue_started rt env this s h jobKey opts Hr). cbv zeta.
      destruct (queryRawUnsafe env _) as [e|results]; [by apply after_keeps_lifecycle|].
      destruct (safeParse rt AddJobResultsSchema results);
        by apply after_keeps_lifecycle.
    + unfold dequeue, bind, get_runner, throw. rewrite Hr. apply keeps_lifecycle_refl.
  - destruct t as [key|key]; cbn [run_task].
    + rewrite handleMessage_cases.
      destruct (schema this !! key) as [messageSchema|]; [|apply keeps_lifecycle_refl].
      destruct (messageSchema payload); [apply keeps_lifecycle_refl|].
      destruct (tasks this !! key); by apply after_keeps_lifecycle.
    + rewrite handleRecurringTask_cases.
      destruct (default ∅ (recurringTasks this) !! key) as [task|];
        [|by apply after_keeps_lifecycle].
      destruct (safeParse rt RawCronPayloadSchema payload) as [zerr|parsed];
        [by apply after_keeps_lifecycle|].
      cbv zeta. destruct (recurring_handler task _ _); by apply after_keeps_lifecycle.
Qed.

(** X11.  Once a worker has a handle it keeps that handle, and its engine
    is never started again, whatever is called on it afterwards and in
    whatever order: [initialize], [stop], [enqueue], [dequeue], or the
    engine running entries of the task list.  In particular a stopped
    worker cannot be started again. *)
Theorem started_forever (cs : list Call) (s : State) (h : Runner) :
  runner s = Some h →
  runner (run_calls rt env this cs s) = Some h
  ∧ engine_starts (trace (run_calls rt env this cs s)) = engine_starts (trace s).
Proof.
  revert s. induction cs as [|c cs IH]; intros s Hr; [done|].
  unfold run_calls. cbn [foldl]. fold (run_calls rt env this cs (run_call rt env this c s)).
  destruct (run_call_keeps_lifecycle c s) as [Hrun Hstarts]; [by rewrite Hr; eexists|].
  destruct (IH (run_call rt env this c s)) as [IHr IHs]; [by rewrite Hrun|].
  split; [done|]. by rewrite IHs.
Qed.

(** *** Enqueue and dequeue *)

(** X12.  In the add-job query of [enqueue] the declaration of the task
    wins over the options of the caller: a priority, a max-attempts or a
    fixed queue name that the task declares is the one sent, and the
    caller's is sent only when the task declares none.  The run-at time and
    the job key can only come from the caller. *)
Theorem task_declaration_wins (s : State) (h : Runner) (identifier : string)
  (task : ZodTask) (payload : value) (opts : option ZodWorkerEnqueueOptions) :
  runner s = Some h →
  tasks this !! identifier = Some task →
  let given := default empty_spec (enqueue_spec <$> opts) in
  ∃ values rest,
    trace (enqueue rt env this identifier payload opts s).2
    = (trace s
       ++ QueryRawUnsafe (default (prisma this) (opts ≫= enqueue_tx)) add_job_sql values
          :: rest)%list
    ∧ (∀ p, task_priority task = Some p →
            bound_argument add_job_sql values "priority" = Some (js_or (VNum p) VNull))
    ∧ (task_priority task = None →
       bound_argument add_job_sql values "priority"
       = Some (js_or (of_number (priority given)) VNull))
    ∧ (∀ n, task_maxAttempts task = Some n →
            bound_argument add_job_sql values "max_attempts"
            = Some (js_or (VNum n) VNull))
    ∧ (task_maxAttempts task = None →
       bound_argument add_job_sql values "max_attempts"
       = Some (js_or (of_number (maxAttempts given)) VNull))
    ∧ (∀ q, task_queueName task = Some (QueueStatic q) →
            bound_argument add_job_sql values "queue_name"
            = Some (js_or (VStr q) VNull))
    ∧ (task_queueName task = None →
       bound_argument add_job_sql values "queue_name"
       = Some (js_or (of_string (queueName given)) VNull))
    ∧ bound_argument add_job_sql values "run_at"
      = Some (js_or (of_date (runAt given)) VNull)
    ∧ bound_argument add_job_sql values "job_key"
      = Some (js_or (of_string (jobKey given)) VNull).
Proof.
  intros Hr Ht given.
  destruct (enqueue_issues_add_job rt env this s h identifier task payload opts Hr Ht)
    as [rest Htrace].
  eexists _, rest. split; [exact Htrace|]. fold given.
  destruct (add_job_bindings rt identifier payload (enqueue_task_spec given task payload))
    as (_ & _ & Hq & Hrun & Hmax & Hkey & Hprio & _).
  cbv zeta in *. rewrite Hq, Hrun, Hmax, Hkey, Hprio.
  unfold enqueue_task_spec. cbn [queueName runAt maxAttempts jobKey priority].
  repeat split; try (by intros ? ->); by intros ->.
Qed.

(** X13.  On a started worker [enqueue] of a declared task and [dequeue]
    each send exactly one query, the add-job and the remove-job query, to
    the transaction the caller gave in the options, or to the Prisma client
    of the worker when the caller gave none. *)
Theorem gateway_sends_one_query (s : State) (h : Runner) :
  runner s = Some h →
  (∀ identifier task payload opts,
      tasks this !! identifier = Some task →
      ∃ values events,
        trace (enqueue rt env this identifier payload opts s).2
        = (trace s ++ events)%list
        ∧ List.filter is_QueryRawUnsafe events
          = [QueryRawUnsafe (default (prisma this) (opts ≫= enqueue_tx)) add_job_sql values])
  ∧ (∀ jobKey opts,
        ∃ events,
          trace (dequeue rt env this jobKey opts s).2 = (trace s ++ events)%list
          ∧ List.filter is_QueryRawUnsafe events
            = [QueryRawUnsafe (default (prisma this) (opts ≫= dequeue_tx)) remove_job_sql
                 [VStr jobKey]]).
Proof.
  intros Hr. split.
  - intros identifier task payload opts Ht.
    rewrite (enqueue_started rt env this s h identifier task payload opts Hr Ht).
    cbv zeta. eexists.
    destruct (queryRawUnsafe env _) as [e|results]; [by eexists|].
    destruct (safeParse rt AddJobResultsSchema results); by eexists.
  - intros jobKey opts. rewrite (dequeue_started rt env this s h jobKey opts Hr).
    cbv zeta. destruct (queryRawUnsafe env _) as [e|results]; [by eexists|].
    destruct (safeParse rt AddJobResultsSchema results); by eexists.
Qed.


(** X15.  How [enqueue] fails once the worker is started and the task is
    declared.  An error thrown by the query is thrown on as it is, not
    wrapped as [dequeue] wraps it.  A result that does not parse as a list
    of job rows gives "Failed to add job to queue, zod parsing error: "
    followed by the serialised zod error.  In both cases the query has been
    sent and the "Enqueued worker task" entry is not logged. *)
Theorem enqueue_failures (s : State) (h : Runner) (identifier : string) (task : ZodTask)
  (payload : value) (opts : option ZodWorkerEnqueueOptions) :
  runner s = Some h →
  tasks this !! identifier = Some task →
  let query :=
    QueryRawUnsafe (default (prisma this) (opts ≫= enqueue_tx)) add_job_sql
      (add_job_values rt identifier payload
         (enqueue_task_spec (default empty_spec (enqueue_spec <$> opts)) task payload)) in
  let answer := queryRawUnsafe env (trace s ++ [query])%list in
  (∀ e, answer = Throw e →
        enqueue rt env this identifier payload opts s = (Throw e, after s [query]))
  ∧ (∀ results zerr,
        answer = Return results →
        safeParse rt AddJobResultsSchema results = inl zerr →
        enqueue rt env this identifier payload opts s
        = (Throw (Error ("Failed to add job to queue, zod parsing error: "
                         ++ template rt (JSON_stringify rt (ZodError_value zerr)))),
           after s [query]))
  ∧ (∀ j s', enqueue rt env this identifier payload opts s = (Return j, s') →
             ∃ results rows,
               answer = Return results
               ∧ safeParse rt AddJobResultsSchema results = inr rows
               ∧ j = first rows).
Proof.
  intros Hr Ht query answer.
  rewrite (enqueue_started rt env this s h identifier task payload opts Hr Ht).
  cbv zeta. fold query. fold answer. destruct answer as [e|results].
  - split; [by intros ? [= <-]|]. by split.
  - split; [done|].
    destruct (safeParse rt AddJobResultsSchema results) as [zerr|rows] eqn:Hparse.
    + split; [|done]. intros results' zerr' [= <-]. rewrite Hparse. by intros [= <-].
    + split; [intros results' zerr' [= <-]; by rewrite Hparse|].
      intros j s' [= <- _]. by exists results, rows.
Qed.

(** X16.  [enqueue] does not validate the payload: on a started worker a
    payload that the schema of the catalog rejects is still sent to the
    engine in the add-job query.  The rejection comes when the job is
    dispatched: [#handleMessage] then throws the zod error and calls no
    handler. *)
Theorem validation_is_deferred (s s' : State) (h : Runner) (identifier : string)
  (task : ZodTask) (messageSchema : MessageSchema) (payload : value)
  (opts : option ZodWorkerEnqueueOptions) (helpers : JobHelpers) (zerr : ZodError) :
  runner s = Some h →
  tasks this !! identifier = Some task →
  schema this !! identifier = Some messageSchema →
  messageSchema payload = inl zerr →
  (∃ values rest,
      trace (enqueue rt env this identifier payload opts s).2
      = (trace s
         ++ QueryRawUnsafe (default (prisma this) (opts ≫= enqueue_tx)) add_job_sql values
            :: rest)%list
      ∧ bound_argument add_job_sql values "payload" = Some (JSON_stringify rt payload))
  ∧ handleMessage rt this identifier payload helpers s'
    = (Throw (ZodError_thrown rt zerr), s').
Proof.
  intros Hr Ht Hs Hp. split.
  - destruct (enqueue_issues_add_job rt env this s h identifier task payload opts Hr Ht)
      as [rest Htrace].
    eexists _, rest. split; [exact Htrace|done].
  - rewrite handleMessage_cases. unfold MessageSchema in *. by rewrite Hs, Hp.
Qed.
End Gateway.

(** Finds a field in a shape that is written out. *)
Ltac field_of_shape :=
  apply list_elem_of_In; cbn; repeat (first [by left | right]).

Section JobRecord.
Variable rt : Runtime.

Lemma parse_object_shape (shape : list (string * ZodType)) (p : list value)
  (ps : list (string * value)) :
  parse_at rt (z_object shape) p (VObj ps) = wrap VObj (parse_shape rt shape p ps).
Proof.
  cbn [parse_at]. f_equal.
  induction shape as [|[k t] rest IH]; [done|]. cbn [parse_shape]. by rewrite <- IH.
Qed.

(** The parsed object has no key outside the shape. *)
Lemma parse_shape_keys (shape : list (string * ZodType)) (p : list value)
  (ps out : list (string * value)) (k : string) :
  parse_shape rt shape p ps = inr out → k ∉ shape.*1 → assoc k out = None.
Proof.
  revert out. induction shape as [|[k' t] rest IH]; intros out; cbn [parse_shape].
  - by intros [= <-].
  - rewrite fmap_cons, not_elem_of_cons. cbn [fst]. intros Hparse [Hne Hnotin].
    destruct (parse_at rt t _ _) as [e|x], (parse_shape rt rest p ps) as [e'|l];
      try discriminate.
    assert (Hl : assoc k l = None) by by apply IH.
    cbn [merge_key] in Hparse.
    destruct x; [destruct (bool_decide _)|..]; injection Hparse as <-; try done;
      cbn [assoc]; by rewrite (proj2 (String.eqb_neq k k') Hne).
Qed.

(** Every field of the shape was parsed by its own schema, and the parsed
    object holds the result under the name of the field. *)
Lemma parse_shape_field (shape : list (string * ZodType)) (p : list value)
  (ps out : list (string * value)) (k : string) (t : ZodType) :
  NoDup shape.*1 →
  parse_shape rt shape p ps = inr out →
  (k, t) ∈ shape →
  parse_at rt t (p ++ [VStr k])%list (get_prop k ps) = inr (get_prop k out).
Proof.
  revert out. induction shape as [|[k' t'] rest IH]; intros out Hnodup;
    [by intros _ ?%elem_of_nil|].
  rewrite fmap_cons in Hnodup. cbn [fst] in Hnodup.
  apply NoDup_cons in Hnodup as [Hfresh Hnodup].
  cbn [parse_shape]. intros Hparse Hin.
  destruct (parse_at rt t' _ _) as [e|x] eqn:Hx,
           (parse_shape rt rest p ps) as [e'|l] eqn:Hl; try discriminate.
  apply elem_of_cons in Hin as [[= -> ->]|Hin].
  - rewrite Hx. f_equal. cbn [merge_key] in Hparse.
    assert (Hnone : assoc k' l = None) by by eapply parse_shape_keys.
    destruct x; [destruct (bool_decide _)|..]; injection Hparse as <-;
      unfold get_prop; cbn [assoc]; rewrite ?String.eqb_refl; try done;
      by rewrite Hnone.
  - assert (Hne : k ≠ k').
    { intros ->. apply Hfresh. apply list_elem_of_fmap. by exists (k', t). }
    rewrite (IH l Hnodup eq_refl Hin). f_equal. cbn [merge_key] in Hparse.
    destruct x; [destruct (bool_decide _)|..]; injection Hparse as <-; try done;
      unfold get_prop; cbn [assoc]; by rewrite (proj2 (String.eqb_neq k k') Hne).
Qed.

Lemma parse_flag_record (p : list value) (ps : list (string * value)) (x : value) :
  parse_at rt (z_record z_boolean) p (VObj ps) = inr x → is_flag_record x = true.
Proof.
  revert x. induction ps as [|[k v] rest IH]; intros x.
  - by intros [= <-].
  - cbn [parse_at] in *. intros Hparse.
    match type of Hparse with
    | wrap VObj (merge_key _ _ ?a ?b) = _ => destruct a as [e|y] eqn:Hy, b as [e'|l] eqn:Hl
    end; try discriminate.
    specialize (IH (VObj l) eq_refl).
    destruct v; try discriminate. injection Hy as <-. by injection Hparse as <-.
Qed.

Lemma parse_string (p : list value) (v x : value) :
  parse_at rt z_string p v = inr x → is_string x = true.
Proof. destruct v; intros [= <-]; done. Qed.

Lemma parse_coerce_string (p : list value) (v x : value) :
  parse_at rt z_coerce_string p v = inr x → is_string x = true.
Proof. by intros [= <-]. Qed.

Lemma parse_number (p : list value) (v x : value) :
  parse_at rt z_number p v = inr x → is_number x = true.
Proof. destruct v; intros [= <-]; done. Qed.

Lemma parse_coerce_date (p : list value) (v x : value) :
  parse_at rt z_coerce_date p v = inr x → is_date x = true.
Proof. cbn [parse_at]. destruct (js_Date rt v); by intros [= <-]. Qed.

Lemma parse_nullable (t : ZodType) (check : value → bool) (p : list value) (v x : value) :
  (∀ v' x', parse_at rt t p v' = inr x' → check x' = true) →
  parse_at rt (z_nullable t) p v = inr x → or_null check x = true.
Proof.
  intros Ht. cbn [parse_at]. destruct v; try (by intros [= <-]);
    intros Hx; apply Ht in Hx; unfold or_null; by destruct x.
Qed.

Lemma parse_nullable_flags (p : list value) (v x : value) :
  parse_at rt (z_nullable (z_record z_boolean)) p v = inr x →
  or_null is_flag_record x = true.
Proof.
  apply parse_nullable. intros v' x' Hx.
  destruct v'; try discriminate. by eapply parse_flag_record.
Qed.

(** Whatever [GraphileJobSchema] accepts comes out as a job record. *)
Lemma parse_job_record (p : list value) (v x : value) :
  parse_at rt GraphileJobSchema p v = inr x → job_record x = true.
Proof.
  unfold GraphileJobSchema. destruct v as [| |?|?|?|?|?|ps]; try discriminate.
  rewrite parse_object_shape.
  destruct (parse_shape rt _ p ps) as [e|out] eqn:Hshape; [discriminate|].
  intros [= <-].
  match type of Hshape with
  | parse_shape _ ?shape _ _ = _ =>
      assert (Hnodup : NoDup shape.*1) by (apply (bool_decide_unpack _); by vm_compute);
      assert (Hfield : ∀ k t, (k, t) ∈ shape →
                parse_at rt t (p ++ [VStr k])%list (get_prop k ps)
                = inr (get_prop k out))
        by (intros k t; by apply parse_shape_field)
  end.
  cbn [job_record]. repeat (apply andb_true_intro; split).
  all: first
    [ by eapply parse_coerce_string, Hfield; field_of_shape
    | by eapply parse_string, Hfield; field_of_shape
    | by eapply parse_number, Hfield; field_of_shape
    | by eapply parse_coerce_date, Hfield; field_of_shape
    | by eapply (parse_nullable z_string), Hfield; [apply parse_string|field_of_shape]
    | by eapply (parse_nullable z_coerce_date), Hfield;
        [apply parse_coerce_date|field_of_shape]
    | by eapply parse_nullable_flags, Hfield; field_of_shape ].
Qed.

(** What [AddJobResultsSchema] accepts: arrays only; no row gives no row,
    and the first parsed row is the parse of the first row. *)
Lemma parse_results (results rows : value) :
  safeParse rt AddJobResultsSchema results = inr rows →
  (results = VArr [] ∧ rows = VArr [])
  ∨ ∃ x xs o os,
      results = VArr (x :: xs) ∧ rows = VArr (o :: os)
      ∧ parse_at rt GraphileJobSchema [VNum 0] x = inr o.
Proof.
  unfold safeParse, AddJobResultsSchema.
  destruct results as [| |?|?|?|?|items|?]; try discriminate.
  destruct items as [|x xs]; [intros [= <-]; by left|].
  cbn [parse_at]. intros Hparse. right.
  match type of Hparse with
  | wrap VArr (merge_item ?a ?b) = _ => destruct a as [e|o] eqn:Ho, b as [e'|os]
  end; try discriminate.
  injection Hparse as <-. by exists x, xs, o, os.
Qed.

(** The job [enqueue] and [dequeue] return from a parsed result. *)
Lemma first_row_is_record (results rows : value) :
  safeParse rt AddJobResultsSchema results = inr rows →
  (results = VArr [] ∧ first rows = VUndefined)
  ∨ ((∃ x xs, results = VArr (x :: xs)) ∧ job_record (first rows) = true).
Proof.
  intros [[-> ->]|(x & xs & o & os & -> & -> & Ho)]%parse_results; [by left|].
  right. split; [by eexists _, _|]. cbn [first]. by eapply parse_job_record.
Qed.
End JobRecord.

Section ReturnedJob.
Variable rt : Runtime.
Variable env : Collaborators.
Variable this : ZodWorkerOptions.

(** X17.  A job that [enqueue] or [dequeue] returns is never a raw row.
    It is [undefined] or it is a job record as the job schema describes
    it: [id] and
    [task_identifier] are strings ([id] whatever the row held, since it is
    coerced), the counters are numbers, the three times are dates,
    [queue_name], [last_error], [key], [locked_at] and [locked_by] are
    [null] or of their type, and [flags] is [null] or an object of
    booleans. *)
Theorem returned_job_is_record (s s' : State) (j : GraphileJob) :
  (∀ identifier payload opts,
      enqueue rt env this identifier payload opts s = (Return j, s') →
      j = VUndefined ∨ job_record j = true)
  ∧ (∀ jobKey opts,
        dequeue rt env this jobKey opts s = (Return j, s') →
        j = VUndefined ∨ job_record j = true).
Proof.
  split.
  - intros identifier payload opts.
    destruct (runner s) as [h|] eqn:Hr.
    2:{ unfold enqueue, bind, get_runner, throw. by rewrite Hr. }
    destruct (tasks this !! identifier) as [task|] eqn:Ht.
    2:{ unfold enqueue, bind, get_runner, throw. by rewrite Hr, Ht. }
    rewrite (enqueue_started rt env this s h identifier task payload opts Hr Ht).
    cbv zeta. destruct (queryRawUnsafe env _) as [e|results]; [done|].
    destruct (safeParse rt AddJobResultsSchema results) as [zerr|rows] eqn:Hparse; [done|].
    intros [= <- _].
    destruct (first_row_is_record rt results rows Hparse) as [[_ ?]|[_ ?]];
      [by left|by right].
  - intros jobKey opts.
    destruct (runner s) as [h|] eqn:Hr.
    2:{ unfold dequeue, bind, get_runner, throw. by rewrite Hr. }
    rewrite (dequeue_started rt env this s h jobKey opts Hr).
    cbv zeta. destruct (queryRawUnsafe env _) as [e|results]; [done|].
    destruct (safeParse rt AddJobResultsSchema results) as [zerr|rows] eqn:Hparse; [done|].
    intros [= <- _].
    destruct (first_row_is_record rt results rows Hparse) as [[_ ?]|[_ ?]];
      [by left|by right].
Qed.
End ReturnedJob.

(** ** The auth config file *)

Lemma parse_UserAuthConfig_value (config : UserAuthConfig) :
  UserAuthConfigSchema_parse (UserAuthConfig_value config) = Some config.
Proof. by destruct config as [[token|] [url|]]. Qed.

Lemma parse_profiles_values (l : list (string * UserAuthConfig)) :
  parse_profiles (prod_map id UserAuthConfig_value <$> l) = Some l.
Proof.
  induction l as [|[k config] l IH]; [done|].
  rewrite fmap_cons. cbn [prod_map parse_profiles fst snd id].
  by rewrite parse_UserAuthConfig_value, IH.
Qed.

(** Parsing the object of a config file gives the file back. *)
Lemma parse_UserAuthConfigFile_value (file : gmap string UserAuthConfig) :
  UserAuthConfigFileSchema_parse (UserAuthConfigFile_value file) = Some file.
Proof.
  unfold UserAuthConfigFileSchema_parse, UserAuthConfigFile_value.
  rewrite parse_profiles_values. cbn. by rewrite list_to_map_to_list.
Qed.

(** One profile that the schema rejects makes the whole file fail. *)
Lemma parse_profiles_rejected (ps : list (string * value)) (k : string) (x : value) :
  (k, x) ∈ ps → UserAuthConfigSchema_parse x = None → parse_profiles ps = None.
Proof.
  induction ps as [|[k' x'] rest IH]; [by intros ?%elem_of_nil|].
  intros [[= <- <-]|Hin]%elem_of_cons Hx; cbn [parse_profiles].
  - by rewrite Hx.
  - rewrite (IH Hin Hx). by destruct (UserAuthConfigSchema_parse x').
Qed.

Section AuthConfigProperties.
Variable pf : Platform.
Hypothesis platform_keeps_word : platform_ok pf.

(** After a write the file reads back as the profiles that could be read
    before, with the written profile set. *)
Lemma read_after_write (config : UserAuthConfig) (profile : option string)
  (fs : FileSystem pf) :
  (read_parsed pf (writeAuthConfigProfile pf config profile fs)).1
  = Some (<[default "default" profile := config]> (default ∅ (read_parsed pf fs).1)).
Proof.
  destruct platform_keeps_word as [Hjoin Hread].
  unfold writeAuthConfigProfile, readAuthConfigFile.
  destruct (read_parsed pf fs) as [existing fs1]. cbn [fst].
  unfold writeAuthConfigFile, read_parsed, logger_debug, getAuthConfigFilePath.
  cbn [files]. rewrite Hjoin.
  rewrite (Hread _ _ (<[default "default" profile := config]> (default ∅ existing)))
    by apply lookup_insert_eq.
  by rewrite parse_UserAuthConfigFile_value.
Qed.

(** X18.  Round trip: whatever the state of the file system was, a profile
    that [writeAuthConfigProfile] wrote is what [readAuthConfigProfile]
    reads for that profile afterwards; an omitted profile is the profile
    "default" on both sides.  The name must not be [__proto__], which an
    assignment does not store as a property. *)
Theorem auth_profile_round_trip (config : UserAuthConfig) (profile : option string)
  (fs : FileSystem pf) :
  default "default" profile ≠ "__proto__" →
  (readAuthConfigProfile pf profile (writeAuthConfigProfile pf config profile fs)).1
  = Some config.
Proof.
  intros _. unfold readAuthConfigProfile.
  pose proof (read_after_write config profile fs) as Hread.
  destruct (read_parsed pf (writeAuthConfigProfile pf config profile fs)) as [parsed fs'].
  cbn [fst] in *. subst parsed. cbn. apply lookup_insert_eq.
Qed.

(** X19.  Writing a profile does not change what any other profile reads
    as: a profile that could be read before the write reads the same
    after, and one that could not is still [undefined].  The other name
    must be one that objects do not inherit. *)
Theorem auth_profile_write_frame (config : UserAuthConfig) (written other : option string)
  (fs : FileSystem pf) :
  default "default" other ≠ default "default" written →
  default "default" other ∉ Object_prototype_names →
  (readAuthConfigProfile pf other (writeAuthConfigProfile pf config written fs)).1
  = (readAuthConfigProfile pf other fs).1.
Proof.
  intros Hne _. unfold readAuthConfigProfile.
  pose proof (read_after_write config written fs) as Hread.
  destruct (read_parsed pf (writeAuthConfigProfile pf config written fs)) as [parsed fs'].
  destruct (read_parsed pf fs) as [[existing|] fs1]; cbn [fst] in *; subst parsed; cbn.
  - by rewrite lookup_insert_ne.
  - rewrite lookup_insert_ne by done. apply lookup_empty.
Qed.

(** X21.  A config file that cannot be read is not repaired but replaced:
    when the file is missing, is not JSON or does not match the schema,
    [writeAuthConfigProfile] leaves a file that holds the written profile
    and no other. *)
Theorem unreadable_file_is_replaced (config : UserAuthConfig) (profile : option string)
  (fs : FileSystem pf) :
  (readAuthConfigFile pf fs).1 = None →
  default "default" profile ≠ "__proto__" →
  (readAuthConfigFile pf (writeAuthConfigProfile pf config profile fs)).1
  = Some {[default "default" profile := config]}.
Proof.
  intros Hnone _. unfold readAuthConfigFile in *.
  by rewrite read_after_write, Hnone.
Qed.
End AuthConfigProperties.

Section AuthConfigReading.
Variable pf : Platform.

(** X20.  One bad profile hides them all: when the config file is an
    object in which some profile does not match the schema, for instance a
    token that is not a string, [readAuthConfigProfile] answers
    [undefined] for every profile, the valid ones too, and logs the
    error; the files are as they were. *)
Theorem bad_profile_hides_file (fs : FileSystem pf) (ps : list (string * value))
  (k : string) (x : value) (profile : option string) :
  readJSONFileSync pf (files fs) (getAuthConfigFilePath pf) = Return (VObj ps) →
  (k, x) ∈ ps →
  UserAuthConfigSchema_parse x = None →
  readAuthConfigProfile pf profile fs
  = (None,
     {| files := files fs; directories := directories fs;
        debug_log := (debug_log fs
                      ++ [ReadingAuthConfigFile (getAuthConfigFilePath pf);
                          ErrorReadingAuthConfigFile SchemaError])%list |}).
Proof.
  intros Hjson Hin Hx. unfold readAuthConfigProfile, read_parsed, logger_debug.
  cbn [files directories debug_log]. rewrite Hjson.
  unfold UserAuthConfigFileSchema_parse. rewrite (parse_profiles_rejected ps k x Hin Hx).
  cbn. by rewrite <- List.app_assoc.
Qed.
End AuthConfigReading.

(** ** The further properties at work *)

Lemma dispatch_message_witness :
  tasks Demo.worker !! "email" = Some Demo.email
  ∧ run_task Demo.rt Demo.worker (MessageTask "email") Demo.welcome Demo.helpers Demo.started
    = (Return tt,
       after Demo.started
         [received_message "email" Demo.welcome Demo.helpers;
          HandlerCall (MessageTask "email") Demo.welcome (job Demo.helpers)]).
Proof.
  split; [reflexivity|].
  exact (proj2 (dispatch_message Demo.rt Demo.worker Demo.started "email" Demo.email
                  Demo.accept_object Demo.welcome Demo.welcome Demo.helpers
                  eq_refl eq_refl eq_refl eq_refl)).
Defined.


Lemma shadowed_task_never_dispatched_witness :
  is_Some (tasks Demo.worker !! "cleanup")
  ∧ ∃ t events,
      createTaskListFromTasks Demo.worker !! "cleanup" = Some t
      ∧ trace (run_task Demo.rt Demo.worker t Demo.fired Demo.helpers Demo.started).2
        = (trace Demo.started ++ events)%list
      ∧ ∀ payload j, HandlerCall (MessageTask "cleanup") payload j ∉ events.
Proof.
  assert (H1 : is_Some (tasks Demo.worker !! "cleanup")) by (eexists; vm_compute; reflexivity).
  assert (H2 : is_Some (default ∅ (recurringTasks Demo.worker) !! "cleanup"))
    by (eexists; vm_compute; reflexivity).
  split; [exact H1|].
  exact (shadowed_task_never_dispatched Demo.rt Demo.worker Demo.started "cleanup"
           Demo.fired Demo.helpers H1 H2).
Defined.

Lemma cron_items_are_dispatched_witness :
  let item := {| cron_pattern := "0 * * * *"; cron_identifier := "cleanup";
                 cron_task := "cleanup"; cron_options := VUndefined |} in
  item ∈ createCronItemsFromRecurringTasks Demo.worker
  ∧ createTaskListFromTasks Demo.worker !! "cleanup" = Some (RecurringTask "cleanup").
Proof.
  intros item.
  assert (Hin : item ∈ createCronItemsFromRecurringTasks Demo.worker)
    by (vm_compute; left).
  split; [exact Hin|].
  exact (proj1 (proj2 (cron_items_are_dispatched Demo.worker item Hin))).
Defined.

Lemma initialize_failures_witness :
  runner constructed = None
  ∧ ∃ run,
      initialize Sample.no_handle_env Demo.worker constructed
      = (Throw (Error "Failed to initialize worker queue"),
         after constructed [initializing Demo.worker; run]).
Proof.
  split; [reflexivity|]. eexists.
  exact (proj1 (proj2 (proj2 (initialize_failures Sample.no_handle_env Demo.worker
                                constructed eq_refl)))
           _ eq_refl eq_refl).
Defined.

Lemma started_forever_witness :
  let calls :=
    [CallStop; CallInitialize; CallEnqueue "email" Demo.welcome None;
     CallTask (RecurringTask "cleanup") Demo.fired Demo.helpers; CallStop;
     CallInitialize; CallDequeue "job-1" None] in
  runner Demo.started = Some 7%nat
  ∧ runner (run_calls Demo.rt Demo.env Demo.worker calls Demo.started) = Some 7%nat
  ∧ engine_starts (trace (run_calls Demo.rt Demo.env Demo.worker calls Demo.started))
    = 0%nat.
Proof.
  intros calls. split; [reflexivity|].
  exact (started_forever Demo.rt Demo.env Demo.worker calls Demo.started 7%nat eq_refl).
Defined.

Lemma task_declaration_wins_witness :
  ∃ values rest,
    trace (enqueue Demo.rt Demo.env Demo.worker "email" Demo.welcome
             (Some {| enqueue_spec :=
                        {| queueName := None; runAt := Some 1704067200000;
                           maxAttempts := Some 9; jobKey := Some "welcome-1";
                           priority := None; flags := None; jobKeyMode := None |};
                      enqueue_tx := None |}) Demo.started).2
    = QueryRawUnsafe 0%nat add_job_sql values :: rest
    ∧ bound_argument add_job_sql values "max_attempts" = Some (VNum 3)
    ∧ bound_argument add_job_sql values "run_at" = Some (VDate 1704067200000)
    ∧ bound_argument add_job_sql values "job_key" = Some (VStr "welcome-1").
Proof.
  destruct (task_declaration_wins Demo.rt Demo.env Demo.worker Demo.started 7%nat "email"
              Demo.email Demo.welcome
              (Some {| enqueue_spec :=
                         {| queueName := None; runAt := Some 1704067200000;
                            maxAttempts := Some 9; jobKey := Some "welcome-1";
                            priority := None; flags := None; jobKeyMode := None |};
                       enqueue_tx := None |}) eq_refl eq_refl)
    as (values & rest & Htrace & _ & _ & Hmax & _ & _ & _ & Hrun & Hkey).
  exists values, rest. split; [exact Htrace|].
  split; [exact (Hmax 3 eq_refl)|]. split; [exact Hrun | exact Hkey].
Defined.

Lemma gateway_sends_one_query_witness :
  runner Demo.started = Some 7%nat
  ∧ ∃ events,
      trace (dequeue Demo.rt Demo.env Demo.worker "job-1"
               (Some {| dequeue_tx := Some 3%nat |}) Demo.started).2
      = (trace Demo.started ++ events)%list
      ∧ List.filter is_QueryRawUnsafe events
        = [QueryRawUnsafe 3%nat remove_job_sql [VStr "job-1"]].
Proof.
  split; [reflexivity|].
  exact (proj2 (gateway_sends_one_query Demo.rt Demo.env Demo.worker Demo.started 7%nat
                  eq_refl) "job-1" (Some {| dequeue_tx := Some 3%nat |})).
Defined.


Lemma enqueue_failures_witness :
  runner Demo.started = Some 7%nat
  ∧ (enqueue Demo.rt Demo.failing_env Demo.worker "email" Demo.welcome None Demo.started).1
    = Throw (Error "connection closed").
Proof.
  split; [reflexivity|].
  exact (f_equal fst
           (proj1 (enqueue_failures Demo.rt Demo.failing_env Demo.worker Demo.started 7%nat
                     "email" Demo.email Demo.welcome None eq_refl eq_refl)
              (Error "connection closed") eq_refl)).
Defined.

Lemma validation_is_deferred_witness :
  Demo.accept_object VNull = inl [mkIssue "invalid_type" []]
  ∧ (∃ values rest,
        trace (enqueue Demo.rt Demo.env Demo.worker "email" VNull None Demo.started).2
        = QueryRawUnsafe 0%nat add_job_sql values :: rest
        ∧ bound_argument add_job_sql values "payload" = Some (VStr "{}"))
  ∧ handleMessage Demo.rt Demo.worker "email" VNull Demo.helpers Demo.started
    = (Throw (ZodError_thrown Demo.rt [mkIssue "invalid_type" []]), Demo.started).
Proof.
  split; [reflexivity|].
  exact (validation_is_deferred Demo.rt Demo.env Demo.worker Demo.started Demo.started 7%nat
           "email" Demo.email Demo.accept_object VNull None Demo.helpers
           [mkIssue "invalid_type" []] eq_refl eq_refl eq_refl eq_refl).
Defined.

Lemma returned_job_is_record_witness :
  ∃ j s',
    enqueue Demo.rt Sample.row_env Demo.worker "email" Demo.welcome None Demo.started
    = (Return j, s')
    ∧ prop j "id" = VStr "41"
    ∧ prop j "job_queue_id" = VUndefined
    ∧ job_record j = true.
Proof.
  eexists _, _. split; [vm_compute; reflexivity|]. split; [reflexivity|].
  split; [reflexivity|].
  destruct (proj1 (returned_job_is_record Demo.rt Sample.row_env Demo.worker Demo.started
                     _ _) "email" Demo.welcome None eq_refl) as [Hundefined|Hrecord].
  - discriminate Hundefined.
  - exact Hrecord.
Defined.

Lemma sample_platform_ok : platform_ok Sample.platform.
Proof.
  split; [done|]. intros fls path file Hfile.
  cbv [readJSONFileSync JSON_text Text Sample.platform] in *. by rewrite Hfile.
Qed.

Lemma auth_profile_round_trip_witness :
  (readAuthConfigProfile Sample.platform (Some "staging")
     (writeAuthConfigProfile Sample.platform Sample.token (Some "staging") Sample.damaged)).1
  = Some Sample.token.
Proof.
  apply (auth_profile_round_trip Sample.platform sample_platform_ok). discriminate.
Defined.

Lemma auth_profile_write_frame_witness :
  let fs := writeAuthConfigProfile Sample.platform Sample.token None Sample.no_files in
  (readAuthConfigProfile Sample.platform None fs).1 = Some Sample.token
  ∧ (readAuthConfigProfile Sample.platform None
       (writeAuthConfigProfile Sample.platform
          {| accessToken := None; apiUrl := None |} (Some "staging") fs)).1
    = (readAuthConfigProfile Sample.platform None fs).1.
Proof.
  intros fs. split.
  - apply (auth_profile_round_trip Sample.platform sample_platform_ok). discriminate.
  - apply (auth_profile_write_frame Sample.platform sample_platform_ok); [discriminate|].
    rewrite list_elem_of_In. cbn. intuition discriminate.
Defined.

Lemma bad_profile_hides_file_witness :
  UserAuthConfigSchema_parse (VObj [("accessToken", VStr "tr_pat_1")])
  = Some {| accessToken := Some "tr_pat_1"; apiUrl := None |}
  ∧ (readAuthConfigProfile Sample.platform None Sample.damaged).1 = None.
Proof.
  split; [reflexivity|].
  exact (f_equal fst
           (bad_profile_hides_file Sample.platform Sample.damaged _
              "staging" (VObj [("accessToken", VNum 7)]) None eq_refl
              ltac:(right; left) eq_refl)).
Defined.

Lemma unreadable_file_is_replaced_witness :
  (readAuthConfigFile Sample.platform Sample.damaged).1 = None
  ∧ (readAuthConfigFile Sample.platform
       (writeAuthConfigProfile Sample.platform Sample.token (Some "staging")
          Sample.damaged)).1
    = Some {["staging" := Sample.token]}.
Proof.
  split; [reflexivity|].
  apply (unreadable_file_is_replaced Sample.platform sample_platform_ok);
    [reflexivity|discriminate].
Defined.

Lemma message_handler_needs_validation_witness :
  ∃ events,
    trace (handleMessage Demo.rt Demo.worker "email" Demo.welcome Demo.helpers
             Demo.started).2
    = (trace Demo.started ++ events)%list
    ∧ (length (List.filter is_HandlerCall events) ≤ 1)%nat
    ∧ ∀ t payload j,
        HandlerCall t payload j ∈ events →
        t = MessageTask "email"
        ∧ j = job Demo.helpers
        ∧ ∃ messageSchema,
            schema Demo.worker !! "email" = Some messageSchema
            ∧ messageSchema Demo.welcome = inr payload.
Proof.
  exact (message_handler_needs_validation Demo.rt Demo.worker Demo.started "email"
           Demo.welcome Demo.helpers).
Defined.

Lemma task_list_names_witness :
  createTaskListFromTasks Demo.worker !! "email" = Some (MessageTask "email")
  ∧ createTaskListFromTasks Demo.worker !! "billing" = None.
Proof.
  destruct (task_list_names Demo.worker "email") as (_ & Hemail & _).
  destruct (task_list_names Demo.worker "billing") as (Hbilling & _).
  split.
  - apply Hemail. split; [by eexists|reflexivity].
  - apply Hbilling. split; reflexivity.
Defined.

Lemma recurring_handler_needs_envelope_witness :
  ∃ events,
    trace (handleRecurringTask Demo.rt Demo.worker "cleanup" Demo.malformed Demo.helpers
             Demo.started).2
    = (trace Demo.started ++ events)%list
    ∧ (length (List.filter is_HandlerCall events) ≤ 1)%nat
    ∧ ∀ t payload j,
        HandlerCall t payload j ∈ events →
        t = RecurringTask "cleanup"
        ∧ j = job Demo.helpers
        ∧ is_Some (default ∅ (recurringTasks Demo.worker) !! "cleanup")
        ∧ ∃ ms b,
            cron_envelope Demo.rt Demo.malformed = Some (ms, b)
            ∧ payload = RecurringTaskPayload ms b.
Proof.
  exact (recurring_handler_needs_envelope Demo.rt Demo.worker Demo.started "cleanup"
           Demo.malformed Demo.helpers).
Defined.

Lemma cron_items_of_recurring_tasks_witness :
  length (createCronItemsFromRecurringTasks Demo.worker) = 1%nat
  ∧ {| cron_pattern := "0 * * * *"; cron_identifier := "cleanup"; cron_task := "cleanup";
       cron_options := VUndefined |} ∈ createCronItemsFromRecurringTasks Demo.worker.
Proof.
  destruct (cron_items_of_recurring_tasks Demo.worker) as (Hitems & Hlength & _).
  split; [by rewrite Hlength|].
  apply Hitems. exists "cleanup", Demo.cleanup. split; reflexivity.
Defined.

(** ** Resolving a project config *)

Section ResolveConfig.
Variable modules : ConfigModules.

(** X22.  What [resolveConfig] answers.  When it returns, the three
    properties it is there to fill are all set, the project and the other
    properties are as given, a trigger URL or a project directory that was
    given and is not the empty string is kept, one that is missing or empty
    becomes the cloud URL or the path, and directories that were given,
    even an empty list, are resolved without a search.  It throws only
    when no directories were given and the search for them throws. *)
Theorem resolveConfig_contract (path : string) (config : Config) :
  match resolveConfig modules path config with
  | Return resolved =>
      project resolved = project config
      ∧ config_rest resolved = config_rest config
      ∧ is_Some (triggerDirectories resolved)
      ∧ triggerUrl resolved
        = Some (match triggerUrl config with
                | Some (String c url) => String c url
                | _ => CLOUD_API_URL modules
                end)
      ∧ projectDir resolved
        = Some (match projectDir config with
                | Some (String c dir) => String c dir
                | _ => path
                end)
      ∧ ∀ given,
          triggerDirectories config = Some given →
          triggerDirectories resolved = Some (resolveTriggerDirectories modules given)
  | Throw e =>
      triggerDirectories config = None ∧ findTriggerDirectories modules path = Throw e
  end.
Proof.
  unfold resolveConfig.
  destruct (triggerDirectories config) as [given|] eqn:Hdirs.
  - cbn [project config_rest triggerDirectories triggerUrl projectDir].
    split; [done|]. split; [done|]. split; [by eexists|].
    split; [by destruct (triggerUrl config) as [[|? ?]|]|].
    split; [by destruct (projectDir config) as [[|? ?]|]|].
    by intros ? [= <-].
  - destruct (findTriggerDirectories modules path) as [e|found]; [done|].
    cbn [project config_rest triggerDirectories triggerUrl projectDir].
    split; [done|]. split; [done|]. split; [by eexists|].
    split; [by destruct (triggerUrl config) as [[|? ?]|]|].
    split; [by destruct (projectDir config) as [[|? ?]|]|]. done.
Qed.

(** X23.  Resolving a resolved config changes nothing, and needs no
    directory search, provided resolving directories that are resolved
    changes nothing. *)
Theorem resolveConfig_idempotent (path : string) (config resolved : Config) :
  (∀ dirs,
      resolveTriggerDirectories modules (resolveTriggerDirectories modules dirs)
      = resolveTriggerDirectories modules dirs) →
  resolveConfig modules path config = Return resolved →
  resolveConfig modules path resolved = Return resolved.
Proof.
  intros Hidem. unfold resolveConfig.
  destruct (match triggerDirectories config with
            | Some given => Return given
            | None => findTriggerDirectories modules path
            end) as [e|dirs]; [done|].
  intros [= <-]. cbn [project config_rest triggerDirectories triggerUrl projectDir].
  rewrite Hidem.
  destruct (triggerUrl config) as [[|? ?]|], (projectDir config) as [[|? ?]|];
    cbn [of_string truthy]; try done;
    by destruct (CLOUD_API_URL modules), path.
Qed.
End ResolveConfig.

Lemma absolute_resolved (dirs : list string) :
  map Project.absolute (map Project.absolute dirs) = map Project.absolute dirs.
Proof.
  induction dirs as [|dir dirs IH]; [done|]. cbn [map]. rewrite IH. f_equal.
  unfold Project.absolute. by destruct (String.prefix "/" dir) eqn:Hprefix; [rewrite Hprefix|].
Qed.

Lemma resolveConfig_contract_witness :
  ∃ resolved,
    resolveConfig Project.modules "/app" Project.project_config = Return resolved
    ∧ triggerUrl resolved = Some "https://api.trigger.dev"
    ∧ projectDir resolved = Some "/app"
    ∧ triggerDirectories resolved = Some ["/app/src/trigger"].
Proof.
  pose proof (resolveConfig_contract Project.modules "/app" Project.project_config) as H.
  destruct (resolveConfig Project.modules "/app" Project.project_config) as [e|resolved] eqn:Hr;
    [discriminate Hr|].
  destruct H as (_ & _ & _ & Hurl & Hdir & Hdirs).
  exists resolved. split; [reflexivity|]. split; [exact Hurl|]. split; [exact Hdir|].
  exact (Hdirs _ eq_refl).
Defined.

Lemma resolveConfig_idempotent_witness :
  ∃ resolved,
    resolveConfig Project.modules "/app" Project.project_config = Return resolved
    ∧ resolveConfig Project.modules "/app" resolved = Return resolved.
Proof.
  eexists. split; [reflexivity|].
  exact (resolveConfig_idempotent Project.modules "/app" Project.project_config _
           absolute_resolved eq_refl).
Defined.
